(** * magstripe-go: the ISO data-block codec, the command engine and the
      MSR605 operations, embedded from [magstripe.go] *)

From Stdlib Require Import ZArith Lia.
From Stdlib Require Import Strings.String Strings.Byte DecimalString.
From stdpp Require Import base tactics option list numbers sets.

Local Open Scope Z_scope.

(** ** Go values *)

(** A Go [string] is a sequence of bytes; [len] and every index are [int]s.
    Strings are far shorter than 2^63 bytes, so [int] is taken as [Z]. *)
Abbreviation gostring := (list byte).

Definition len (s : gostring) : Z := Z.of_nat (length s).

#[global] Instance byte_eq_dec : EqDecision byte := Byte.byte_eq_dec.

(** The arguments of a [fmt.Errorf] call, kept with the format string rather
    than rendered. *)
Inductive fmt_arg : Type :=
| ArgString (s : gostring)
| ArgInt (n : Z)
| ArgByte (b : byte).

(** Go [error] values: [errors.New], [fmt.Errorf], and whatever error the
    serial port hands back from [Write]. *)
Inductive error : Type :=
| errors_New (text : string)
| fmt_Errorf (format : string) (args : list fmt_arg)
| port_failure (code : nat).

(** What a call does: return with a nil error, return with an error (the
    other results are then the zero values, as everywhere in the source), or
    panic at run time on an index or slice out of range. *)
Inductive outcome (A : Type) : Type :=
| Ok (a : A)
| Err (e : error)
| Panic.
Arguments Ok {A} a.
Arguments Err {A} e.
Arguments Panic {A}.

Definition bind {A B} (m : outcome A) (k : A -> outcome B) : outcome B :=
  match m with
  | Ok a => k a
  | Err e => Err e
  | Panic => Panic
  end.

Notation "x <- m ;; k" := (bind m (fun x => k))
  (at level 100, m at next level, k at level 200, right associativity).

(** [a || b] of Go: [b] is evaluated only when [a] is false. *)
Definition orelse (a : bool) (b : outcome bool) : outcome bool :=
  if a then Ok true else b.

(** [a && b] of Go: [b] is evaluated only when [a] is true. *)
Definition andalso (a : bool) (b : outcome bool) : outcome bool :=
  if a then b else Ok false.

(** [s[lo:hi]]: panics unless [0 <= lo <= hi <= len(s)]. *)
Definition slice (s : gostring) (lo hi : Z) : outcome gostring :=
  if bool_decide (0 <= lo /\ lo <= hi /\ hi <= len s)
  then Ok (take (Z.to_nat (hi - lo)) (drop (Z.to_nat lo) s))
  else Panic.

(** [s[i]]: panics unless [0 <= i < len(s)]. *)
Definition at_index (s : gostring) (i : Z) : outcome byte :=
  if bool_decide (0 <= i)
  then match s !! Z.to_nat i with
       | Some b => Ok b
       | None => Panic
       end
  else Panic.

(** [strings.HasPrefix]. *)
Fixpoint has_prefix (s prefix : gostring) {struct prefix} : bool :=
  match prefix, s with
  | [], _ => true
  | _ :: _, [] => false
  | b :: prefix', c :: s' => bool_decide (b = c) && has_prefix s' prefix'
  end.

(** [strings.Index(s, substr)]: the index of the first instance of [substr]
    in [s], or -1. [index_from s substr i] searches [s], which starts at
    offset [i] of the whole string. *)
Fixpoint index_from (s substr : gostring) (i : Z) : Z :=
  if has_prefix s substr then i
  else match s with
       | [] => -1
       | _ :: s' => index_from s' substr (i + 1)
       end.

Definition strings_Index (s substr : gostring) : Z := index_from s substr 0.

(** [strings.LastIndex(s, substr)]: the index of the last instance, or -1. *)
Fixpoint last_index_from (s substr : gostring) (i : Z) : Z :=
  match s with
  | [] => if has_prefix s substr then i else -1
  | _ :: s' =>
      let later := last_index_from s' substr (i + 1) in
      if bool_decide (later = -1)
      then (if has_prefix s substr then i else -1)
      else later
  end.

Definition strings_LastIndex (s substr : gostring) : Z :=
  last_index_from s substr 0.

(** [strings.Contains]. *)
Definition strings_Contains (s substr : gostring) : bool :=
  bool_decide (strings_Index s substr >= 0).

(** The byte of value [n], for [0 <= n < 256]. *)
Definition byte_of_int (n : Z) : byte :=
  default x00 (Byte.of_N (Z.to_N n)).

(** [string(byte(n))] for an [int] [n]: [byte(n)] keeps the low 8 bits, and
    the conversion of an integer to [string] gives the UTF-8 encoding of
    that code point, one byte below 0x80 and two bytes from there on. *)
Definition string_byte (n : Z) : gostring :=
  let v := n mod 256 in
  if bool_decide (v < 128) then [byte_of_int v]
  else [byte_of_int (Z.lor 192 (Z.shiftr v 6)); byte_of_int (Z.lor 128 (Z.land v 63))].

(** A Go string literal of printable characters. *)
Definition bytes (s : string) : gostring := list_byte_of_string s.

(** ** Protocol constants *)

Definition EscapeCode : gostring := [x1b].
Definition EndCode : gostring := [x1c].

(** ** The ISO data block *)

(** [encodeISODataBlock]: "\x1bs\x1b\x01" + strip1 + "\x1b\x02" + strip2 +
    "\x1b\x03" + strip3 + "?\x1C". *)
Definition encodeISODataBlock (strip1 strip2 strip3 : gostring) : gostring :=
  [x1b; x73; x1b; x01] ++ strip1 ++ [x1b; x02] ++ strip2 ++ [x1b; x03]
    ++ strip3 ++ [x3f; x1c].

Definition bad_header : string :=
  "bad datablock: doesn't start with <ESC>s<ESC>[01]: %v".
Definition bad_end : string :=
  "bad datablock: doesn't end with ?<FS>: %v".
Definition no_escape_1 : string :=
  "bad datablock: missing escape code after strip 1".
Definition no_marker_2 : string :=
  "bad datablock: missing <ESC>[02] at position %d".
Definition no_escape_2 : string :=
  "bad datablock: missing escape code after strip 2".
Definition no_marker_3 : string :=
  "bad datablock: missing <ESC>[03] at position %d".

(** [decodeISODataBlock], statement by statement. *)
Definition decodeISODataBlock (data : gostring)
  : outcome (gostring * gostring * gostring) :=
  (* Check header *)
  badHeader <- orelse (bool_decide (len data < 4))
                 (h <- slice data 0 4 ;;
                  Ok (negb (bool_decide (h = EscapeCode ++ [x73] ++ EscapeCode ++ [x01])))) ;;
  if (badHeader : bool) then Err (fmt_Errorf bad_header [ArgString data]) else
  (* Check end *)
  badEnd <- orelse (bool_decide (len data < 2))
              (t <- slice data (len data - 2) (len data) ;;
               Ok (negb (bool_decide (t = [x3f] ++ EndCode)))) ;;
  if (badEnd : bool) then Err (fmt_Errorf bad_end [ArgString data]) else
  (* First strip *)
  let strip1Start := 4 in
  rest1 <- slice data strip1Start (len data) ;;
  let strip1End := strings_Index rest1 EscapeCode in
  if bool_decide (strip1End = -1) then Err (fmt_Errorf no_escape_1 []) else
  let strip1End := strip1End + strip1Start in
  first <- (if bool_decide (strip1End = strip1Start)
            then Ok (strip1End + 2, [])
            else s <- slice data strip1Start strip1End ;; Ok (strip1End, s)) ;;
  let '(strip1End, strip1) := first in
  (* Second strip *)
  let strip2Start := strip1End + 2 in
  noMarker2 <- orelse (bool_decide (strip2Start >= len data))
                 (m <- slice data strip1End strip2Start ;;
                  Ok (negb (bool_decide (m = EscapeCode ++ [x02])))) ;;
  if (noMarker2 : bool) then Err (fmt_Errorf no_marker_2 [ArgInt strip1End]) else
  rest2 <- slice data strip2Start (len data) ;;
  let strip2End := strings_Index rest2 EscapeCode in
  if bool_decide (strip2End = -1) then Err (fmt_Errorf no_escape_2 []) else
  let strip2End := strip2End + strip2Start in
  second <- (if bool_decide (strip2End = strip2Start)
             then Ok (strip2End + 2, [])
             else s <- slice data strip2Start strip2End ;; Ok (strip2End, s)) ;;
  let '(strip2End, strip2) := second in
  (* Third strip *)
  let strip3Start := strip2End + 2 in
  noMarker3 <- orelse (bool_decide (strip3Start >= len data))
                 (m <- slice data strip2End strip3Start ;;
                  Ok (negb (bool_decide (m = EscapeCode ++ [x03])))) ;;
  if (noMarker3 : bool) then Err (fmt_Errorf no_marker_3 [ArgInt strip2End]) else
  hasStrip3 <- andalso (bool_decide (strip3Start < len data))
                 (c <- at_index data strip3Start ;;
                  e <- at_index EscapeCode 0 ;;
                  Ok (negb (bool_decide (c = e)))) ;;
  strip3 <- (if (hasStrip3 : bool)
             then slice data strip3Start (len data - 2)
             else Ok []) ;;
  Ok (strip1, strip2, strip3).

(** ** The serial port and the clock *)

(** Time is counted in milliseconds. *)
Definition time_Millisecond : Z := 1.
Definition time_Second : Z := 1000.

(** What one call of [port.Read] will return: the bytes it puts in the
    buffer, whether its error is non-nil, and how long the call takes. *)
Record ReadEvent : Type := {
  ev_data : gostring;
  ev_err : bool;
  ev_wait : Z
}.

(** Modelled from the spec: the serial port of [go.bug.st/serial], which is
    not part of the package, as the Transport the engine is written against
    (write, read with "zero return on no data", a settable read timeout),
    together with the clock it is watched by.
    [rx] lists the results of the [Read] calls to come (when none is left the
    line is silent: a [Read] waits for the read timeout and returns zero
    bytes); [wr] lists the results of the [Write] calls to come ([None], or
    none left: the write succeeds); [written] keeps every buffer handed to
    [Write], oldest first. *)
Record Port : Type := {
  rx : list ReadEvent;
  wr : list (option nat);
  written : list gostring;
  read_timeout : Z;
  now : Z
}.

(** [type MSR struct { port serial.Port }]. *)
Record MSR : Type := { port : Port }.

(** [port.Read(buffer)] with [cap] the length of the buffer: the bytes read
    ([n] is their number, never more than the buffer holds) and whether
    [err != nil]. *)
Definition port_Read (cap : Z) (p : Port) : (gostring * bool) * Port :=
  match rx p with
  | [] =>
      (([], false),
       {| rx := []; wr := wr p; written := written p;
          read_timeout := read_timeout p;
          now := now p + Z.max 0 (read_timeout p) |})
  | ev :: later =>
      ((take (Z.to_nat cap) (ev_data ev), ev_err ev),
       {| rx := later; wr := wr p; written := written p;
          read_timeout := read_timeout p;
          now := now p + Z.max 0 (ev_wait ev) |})
  end.

(** [port.Write(data)]: the error, if any. *)
Definition port_Write (data : gostring) (p : Port) : option error * Port :=
  (match wr p with
   | Some code :: _ => Some (port_failure code)
   | _ => None
   end,
   {| rx := rx p; wr := tail (wr p); written := written p ++ [data];
      read_timeout := read_timeout p; now := now p |}).

(** [port.SetReadTimeout(d)]. *)
Definition port_SetReadTimeout (d : Z) (p : Port) : Port :=
  {| rx := rx p; wr := wr p; written := written p;
     read_timeout := d; now := now p |}.

(** [time.Sleep(d)]. *)
Definition time_Sleep (d : Z) (p : Port) : Port :=
  {| rx := rx p; wr := wr p; written := written p;
     read_timeout := read_timeout p; now := now p + Z.max 0 d |}.

(** ** Loops *)

(** One pass through the body of a [for] loop either goes round again or
    leaves the loop ([break], or the loop condition is false). *)
Inductive pass (St R : Type) : Type :=
| Again (s : St)
| Leave (r : R).
Arguments Again {St R} s.
Arguments Leave {St R} r.

Fixpoint iterate {St R : Type} (fuel : nat) (body : St -> pass St R) (s : St)
  : option R :=
  match fuel with
  | O => None
  | S fuel' =>
      match body s with
      | Leave r => Some r
      | Again s' => iterate fuel' body s'
      end
  end.

(** ** The command engine *)

(** The body of the loop that clears the input buffer:
    [n, _ := m.port.Read(clearBuffer); if n == 0 { break }]. *)
Definition clearBody (p : Port) : pass Port Port :=
  let '((chunk, _), p) := port_Read 1024 p in
  let n := len chunk in
  if bool_decide (n = 0) then Leave p else Again p.

Definition clearInput (p : Port) : Port :=
  default p (iterate (S (length (rx p))) clearBody p).

(** The body of the loop that reads the response, with its condition
    [time.Since(startTime) < timeout]. *)
Definition pollBody (startTime timeout : Z) (st : gostring * Port)
  : pass (gostring * Port) (gostring * Port) :=
  let '(response, p) := st in
  if negb (bool_decide (now p - startTime < timeout)) then Leave (response, p) else
  let '((chunk, err), p) := port_Read 1024 p in
  let n := len chunk in
  if err && bool_decide (n = 0) then Leave (response, p) else
  let response := if bool_decide (n > 0) then response ++ chunk else response in
  if bool_decide (n > 0)
     && (bool_decide (len response > 0) && strings_Contains response EscapeCode)
  then Leave (response, p) else
  let p := if bool_decide (n = 0) then time_Sleep (10 * time_Millisecond) p else p in
  Again (response, p).

(** Passes that are enough for the loop to end: each one takes a read off
    [rx], or lets at least 10 ms of the window go by. *)
Definition pollFuel (startTime timeout : Z) (p : Port) : nat :=
  S (length (rx p) + Z.to_nat (startTime + timeout - now p)).

Definition pollLoop (startTime timeout : Z) (response : gostring) (p : Port)
  : gostring * Port :=
  default (response, p)
    (iterate (pollFuel startTime timeout p) (pollBody startTime timeout)
       (response, p)).

Definition timed_out : error := errors_New "operation timed out".
Definition invalid_format : error := errors_New "invalid response format".
Definition incomplete : error := errors_New "incomplete response".

(** The end of [executeWaitResult], from [// Parse result: status, result,
    data]. *)
Definition parseResponse (response : gostring)
  : outcome (byte * gostring * gostring) :=
  let responseStr := response in
  let pos := strings_LastIndex responseStr EscapeCode in
  if bool_decide (pos = -1) then Err invalid_format else
  if bool_decide (pos + 1 >= len responseStr) then Err incomplete else
  status <- at_index responseStr (pos + 1) ;;
  result <- (if bool_decide (pos + 2 < len responseStr)
             then slice responseStr (pos + 2) (len responseStr)
             else Ok []) ;;
  data <- (if bool_decide (pos > 0) then slice responseStr 0 pos else Ok []) ;;
  Ok (status, result, data).

(** [executeWaitResult]. The deferred [SetReadTimeout(oldTimeout)] runs on
    every return that follows the [defer] statement. *)
Definition executeWaitResult (command : gostring) (timeout : Z) (m : MSR)
  : outcome (byte * gostring * gostring) * MSR :=
  (* Clear input buffer by reading any available data *)
  let p := clearInput (port m) in
  (* Send command *)
  let '(err, p) := port_Write (EscapeCode ++ command) p in
  match err with
  | Some e => (Err e, {| port := p |})
  | None =>
      let p := time_Sleep (100 * time_Millisecond) p in
      (* Read response with timeout *)
      let startTime := now p in
      let oldTimeout := time_Millisecond * 100 in
      let p := port_SetReadTimeout timeout p in
      let '(response, p) := pollLoop startTime timeout [] p in
      let p := port_SetReadTimeout oldTimeout p in
      (if bool_decide (len response = 0) then Err timed_out
       else parseResponse response,
       {| port := p |})
  end.

(** [executeNoResult]. *)
Definition executeNoResult (command : gostring) (m : MSR) : outcome unit * MSR :=
  let '(err, p) := port_Write (EscapeCode ++ command) (port m) in
  match err with
  | Some e => (Err e, {| port := p |})
  | None => (Ok tt, {| port := time_Sleep (100 * time_Millisecond) p |})
  end.

(** ** The operations of the device *)

(** A method of [*MSR]: it returns or fails, and leaves the port behind. *)
Definition action (A : Type) : Type := MSR -> outcome A * MSR.

Definition and_then {A B} (a : action A) (k : A -> action B) : action B :=
  fun m =>
    let '(r, m) := a m in
    match r with
    | Ok x => k x m
    | Err e => (Err e, m)
    | Panic => (Panic, m)
    end.

Definition ret {A} (x : A) : action A := fun m => (Ok x, m).
Definition fail {A} (e : error) : action A := fun m => (Err e, m).
Definition pure {A} (r : outcome A) : action A := fun m => (r, m).

Notation "x <~ a ;; k" := (and_then a (fun x => k))
  (at level 100, a at next level, k at level 200, right associativity).

(** [type TrackData struct]. *)
Record TrackData : Type := {
  Track1 : gostring;
  Track2 : gostring;
  Track3 : gostring
}.

(** [status != '0']. *)
Definition refused (status : byte) : bool := negb (bool_decide (status = x30)).

(** [Reset]. *)
Definition Reset : action unit := executeNoResult (bytes "a").

(** [ReadTracks]. *)
Definition ReadTracks : action TrackData :=
  r <~ executeWaitResult (bytes "r") (10 * time_Second) ;;
  let '(status, _, data) := r in
  if refused status then fail (fmt_Errorf "read error: %c" [ArgByte status]) else
  strips <~ pure (decodeISODataBlock data) ;;
  let '(strip1, strip2, strip3) := strips in
  ret {| Track1 := strip1; Track2 := strip2; Track3 := strip3 |}.

(** [WriteTracks]. *)
Definition WriteTracks (t1 t2 t3 : gostring) : action unit :=
  let data := encodeISODataBlock t1 t2 t3 in
  r <~ executeWaitResult (bytes "w" ++ data) (10 * time_Second) ;;
  let '(status, _, _) := r in
  if refused status then fail (fmt_Errorf "write error: %c" [ArgByte status]) else
  ret tt.

(** [EraseTracks]. *)
Definition EraseTracks (t1 t2 t3 : bool) : action unit :=
  let mask := 0 in
  let mask := if t1 then Z.lor mask 1 else mask in
  let mask := if t2 then Z.lor mask 2 else mask in
  let mask := if t3 then Z.lor mask 4 else mask in
  r <~ executeWaitResult (bytes "c" ++ string_byte mask) (10 * time_Second) ;;
  let '(status, _, _) := r in
  if refused status then fail (fmt_Errorf "erase error: %c" [ArgByte status]) else
  ret tt.

(** [SetCoercivity]. *)
Definition SetCoercivity (hico : bool) : action unit :=
  let command := if hico then bytes "x" else bytes "y" in
  r <~ executeWaitResult command (10 * time_Second) ;;
  let '(status, _, _) := r in
  if refused status then fail (fmt_Errorf "set_coercivity error: %c" [ArgByte status]) else
  ret tt.

(** [SetBPC]. *)
Definition SetBPC (bpc1 bpc2 bpc3 : Z) : action unit :=
  r <~ executeWaitResult
         (bytes "o" ++ string_byte bpc1 ++ string_byte bpc2 ++ string_byte bpc3)
         (10 * time_Second) ;;
  let '(status, _, _) := r in
  if refused status then fail (fmt_Errorf "set_bpc error: %c" [ArgByte status]) else
  ret tt.

(** The modes [SetBPI] collects: a [*bool] is [None] when nil. *)
Definition bpiModes (bpi1 bpi2 bpi3 : option bool) : list gostring :=
  let modes := [] in
  let modes := match bpi1 with
               | Some b => if b then modes ++ [[xa1]] (* 210bpi *)
                           else modes ++ [[xa0]] (* 75bpi *)
               | None => modes
               end in
  let modes := match bpi2 with
               | Some b => if b then modes ++ [[xd2]] else modes ++ [[x4b]]
               | None => modes
               end in
  let modes := match bpi3 with
               | Some b => if b then modes ++ [[xc1]] else modes ++ [[xc0]]
               | None => modes
               end in
  modes.

(** [for _, mode := range modes { ... }] of [SetBPI]. *)
Fixpoint sendModes (modes : list gostring) : action unit :=
  match modes with
  | [] => ret tt
  | mode :: modes' =>
      r <~ executeWaitResult (bytes "b" ++ mode) (10 * time_Second) ;;
      let '(status, _, _) := r in
      if refused status
      then fail (fmt_Errorf "set_bpi error: %c for %x" [ArgByte status; ArgString mode])
      else sendModes modes'
  end.

(** [SetBPI]. *)
Definition SetBPI (bpi1 bpi2 bpi3 : option bool) : action unit :=
  sendModes (bpiModes bpi1 bpi2 bpi3).

(** [ReadRawTracks]. *)
Definition ReadRawTracks : action (gostring * gostring * gostring) :=
  r <~ executeWaitResult (bytes "m") (10 * time_Second) ;;
  let '(status, _, data) := r in
  if refused status then fail (fmt_Errorf "read error: %c" [ArgByte status]) else
  ret (data, [], []).

(** [WriteRawTracks]. *)
Definition WriteRawTracks (t1 t2 t3 : gostring) : action unit :=
  let data := [x1b; x73; x1b; x01] ++ string_byte (len t1) ++ t1
              ++ [x1b; x02] ++ string_byte (len t2) ++ t2
              ++ [x1b; x03] ++ string_byte (len t3) ++ t3 ++ [x3f; x1c] in
  r <~ executeWaitResult (bytes "n" ++ data) (10 * time_Second) ;;
  let '(status, _, _) := r in
  if refused status then fail (fmt_Errorf "write error: %c" [ArgByte status]) else
  ret tt.

(** ** Notions for the statements *)

(** The port at a later moment of the same line: the same configuration and
    the same writes, the clock not set back, some reads used up. *)
Definition later (p q : Port) : Prop :=
  written q = written p /\ wr q = wr p /\ read_timeout q = read_timeout p
  /\ now p <= now q /\ rx q `suffix_of` rx p.

(** The time the response loop spends on reads that bring nothing: each
    takes its wait, and 10 ms of sleep follow. *)
Fixpoint span (events : list ReadEvent) : Z :=
  match events with
  | [] => 0
  | ev :: events' => Z.max 0 (ev_wait ev) + 10 + span events'
  end.

(** The line brings no byte for the whole window of [timeout]: its reads
    bring nothing up to [rest], and [rest] is out of reach. Either nothing
    follows at all, or the reads after the first (which the clearing of the
    input takes) span the window. *)
Definition quiet_window (timeout : Z) (p : Port) (rest : list ReadEvent) : Prop :=
  exists quiet,
    rx p = quiet ++ rest
    /\ Forall (fun ev => ev_data ev = []) quiet
    /\ (rest = [] \/ (quiet <> [] /\ timeout <= span (tail quiet))).

(** Two ports on the same line: the same reads and write results to come. *)
Definition same_line (p q : Port) : Prop := rx p = rx q /\ wr p = wr q.

(** What bounds the passes of the response loop that are left. *)
Definition pollMeasure (startTime timeout : Z) (st : gostring * Port) : nat :=
  length (rx st.2) + Z.to_nat (startTime + timeout - now st.2).

(** The next [Write] succeeds. *)
Definition write_succeeds (p : Port) : Prop :=
  forall code, head (wr p) <> Some (Some code).

(** The operations that send one command and await its status, with their
    arguments. *)
Inductive operation : Type :=
| read_tracks
| write_tracks (t1 t2 t3 : gostring)
| erase_tracks (t1 t2 t3 : bool)
| set_coercivity (hico : bool)
| set_bpc (bpc1 bpc2 bpc3 : Z)
| read_raw_tracks
| write_raw_tracks (t1 t2 t3 : gostring).

(** Running an operation for its error alone. *)
Definition forget {A} (a : action A) : action unit :=
  x <~ a ;; ret tt.

Definition perform (op : operation) : action unit :=
  match op with
  | read_tracks => forget ReadTracks
  | write_tracks t1 t2 t3 => WriteTracks t1 t2 t3
  | erase_tracks t1 t2 t3 => EraseTracks t1 t2 t3
  | set_coercivity hico => SetCoercivity hico
  | set_bpc bpc1 bpc2 bpc3 => SetBPC bpc1 bpc2 bpc3
  | read_raw_tracks => forget ReadRawTracks
  | write_raw_tracks t1 t2 t3 => WriteRawTracks t1 t2 t3
  end.

(** The name an operation's status error opens with. *)
Definition error_name (op : operation) : string :=
  match op with
  | read_tracks | read_raw_tracks => "read"
  | write_tracks _ _ _ | write_raw_tracks _ _ _ => "write"
  | erase_tracks _ _ _ => "erase"
  | set_coercivity _ => "set_coercivity"
  | set_bpc _ _ _ => "set_bpc"
  end.

(** The command an operation hands to the engine. *)
Definition command_of (op : operation) : gostring :=
  match op with
  | read_tracks => bytes "r"
  | write_tracks t1 t2 t3 => bytes "w" ++ encodeISODataBlock t1 t2 t3
  | erase_tracks t1 t2 t3 =>
      bytes "c" ++ string_byte ((if t1 then 1 else 0) + (if t2 then 2 else 0)
                                + (if t3 then 4 else 0))
  | set_coercivity hico => if hico then bytes "x" else bytes "y"
  | set_bpc bpc1 bpc2 bpc3 =>
      bytes "o" ++ string_byte bpc1 ++ string_byte bpc2 ++ string_byte bpc3
  | read_raw_tracks => bytes "m"
  | write_raw_tracks t1 t2 t3 =>
      bytes "n" ++ [x1b; x73; x1b; x01] ++ string_byte (len t1) ++ t1
        ++ [x1b; x02] ++ string_byte (len t2) ++ t2
        ++ [x1b; x03] ++ string_byte (len t3) ++ t3 ++ [x3f; x1c]
  end.

(** What an operation makes of an accepted response. *)
Definition on_success (op : operation) (data : gostring) : outcome unit :=
  match op with
  | read_tracks => strips <- decodeISODataBlock data ;; Ok tt
  | _ => Ok tt
  end.

(** The mode bytes of [SetBPI], by track and density (high first). *)
Definition bpiTable : list byte := [xa1; xa0; xd2; x4b; xc1; xc0].

(** The tracks [SetBPI] is asked to set. *)
Definition slots_set (bpi1 bpi2 bpi3 : option bool) : nat :=
  length (omap id [bpi1; bpi2; bpi3]).

(** ** Track fields on the wire *)

(** A track field as [decodeISODataBlock] accepts it in front of a marker:
    the bytes [wire] are read as [value]. Either [wire] is the text itself,
    not empty and free of escape bytes, or it is an escape byte and one more
    byte, which are stepped over and read as no text. *)
Inductive field : gostring -> gostring -> Prop :=
| field_text (s : gostring) : s <> [] -> x1b ∉ s -> field s s
| field_blank (p : byte) : field [x1b; p] [].

(** ** Reads *)

(** What a read brings into a buffer of 1024 bytes. *)
Definition chunk (ev : ReadEvent) : gostring := take (Z.to_nat 1024) (ev_data ev).

(** The waits of reads, none counted below zero. *)
Fixpoint waits (events : list ReadEvent) : Z :=
  match events with
  | [] => 0
  | ev :: events' => Z.max 0 (ev_wait ev) + waits events'
  end.

(** ** Connecting *)

(** [serial.Mode] of [go.bug.st/serial]. *)
Inductive serial_Parity : Type :=
| serial_NoParity | serial_OddParity | serial_EvenParity
| serial_MarkParity | serial_SpaceParity.

Inductive serial_StopBits : Type :=
| serial_OneStopBit | serial_OnePointFiveStopBits | serial_TwoStopBits.

Record serial_Mode : Type := {
  BaudRate : Z;
  DataBits : Z;
  Parity : serial_Parity;
  StopBits : serial_StopBits
}.

(** An error that wraps another: [fmt.Errorf] with the verb [%w]. *)
Inductive wrapped : Type :=
| fmt_Errorf_w (format : string) (cause : error).

(** [NewMSR]. [serial_Open] stands for [serial.Open], which is not part of
    the package: the port it opens at a path in a mode, or its error. The
    error of [msr.Reset()] is dropped. *)
Definition NewMSR (serial_Open : gostring -> serial_Mode -> Port + error)
    (devPath : gostring) : MSR + wrapped :=
  let devPath :=
    if negb (strings_Contains devPath (bytes "/"))
       && negb (strings_Contains devPath [x5c])
    then (if strings_Contains devPath (bytes "COM")
          then (* Windows *) devPath
          else (* Unix-like *) bytes "/dev/" ++ devPath)
    else devPath in
  let mode := {| BaudRate := 9600; DataBits := 8;
                 Parity := serial_NoParity; StopBits := serial_OneStopBit |} in
  match serial_Open devPath mode with
  | inr err => inr (fmt_Errorf_w "failed to open serial port: %w" err)
  | inl port =>
      let msr := {| port := port |} in
      let '(_, msr) := Reset msr in
      inl msr
  end.

(** ** Raw tracks *)

(** [type RawData struct]. *)
Record RawData : Type := {
  Data : gostring;
  TotalLength : Z;
  ParityErrors : gostring;
  LRCError : bool
}.

(** [strings.Repeat], which panics on a negative count. *)
Definition strings_Repeat (s : gostring) (count : Z) : outcome gostring :=
  if bool_decide (count < 0) then Panic
  else Ok (concat (replicate (Z.to_nat count) s)).

(** [PackRaw]. *)
Definition PackRaw (data mapping : gostring) (bcountCode bcountOutput : Z) : gostring :=
  data.

(** [UnpackRaw]. *)
Definition UnpackRaw (rawData mapping : gostring) (bcountCode bcountOutput : Z)
  : outcome RawData :=
  parityErrors <- strings_Repeat (bytes " ") (len rawData) ;;
  Ok {| Data := rawData;
        TotalLength := len rawData;
        ParityErrors := parityErrors;
        LRCError := false |}.

(** The verb [%d] of [fmt] on an [int]. *)
Definition fmt_d (n : Z) : gostring :=
  bytes (NilZero.string_of_int (Z.to_int n)).

(** [printRawResult] of the raw reading example: what it writes to the
    standard output, one entry for each call of [fmt]. *)
Definition printRawResult (trackNum : Z) (res : RawData) : list gostring :=
  let line := bytes "  Data: " ++ Data res in
  let line := if negb (bool_decide (len (Data res) = TotalLength res))
              then line ++ bytes " (+" ++ fmt_d (TotalLength res - len (Data res))
                     ++ bytes " null bytes)"
              else line in
  let line := if LRCError res then line ++ bytes " (LRC error detected)" else line in
  let out := [line ++ [x0a]] in
  let out := if strings_Contains (ParityErrors res) (bytes "^")
             then out ++ [bytes "  Parity errors: " ++ ParityErrors res ++ [x0a]]
             else out in
  out ++ [[x0a]].

(** * Properties *)

(** ** The tests of the package, run on the embedding *)

(** [TestEncodeDecodeISODataBlock]. *)
Example test_encode_decode :
  decodeISODataBlock
    (encodeISODataBlock (bytes "TRACK1DATA") (bytes "TRACK2DATA") (bytes "TRACK3DATA"))
  = Ok (bytes "TRACK1DATA", bytes "TRACK2DATA", bytes "TRACK3DATA").
Proof. reflexivity. Qed.

(** [TestDecodeISODataBlockErrors], "Missing end code". *)
Example test_missing_end_code :
  let data := [x1b; x73; x1b; x01] ++ bytes "test" ++ [x1b; x02] ++ bytes "test"
              ++ [x1b; x03] ++ bytes "test" in
  decodeISODataBlock data = Err (fmt_Errorf bad_end [ArgString data]).
Proof. reflexivity. Qed.

(** [string(byte(n))] at work: one byte below 0x80, two from there on. *)
Example string_byte_values :
  string_byte 5 = [x05] /\ string_byte 8 = [x08]
  /\ string_byte 200 = [xc3; x88] /\ string_byte 261 = [x05].
Proof. repeat split. Qed.

(** A response with an escape byte in its data is split at the last one. *)
Example parse_embedded_escape :
  parseResponse (bytes "X" ++ [x1b] ++ bytes "Y" ++ [x1b; x30] ++ bytes "Z")
  = Ok (x30, bytes "Z", bytes "X" ++ [x1b] ++ bytes "Y").
Proof. reflexivity. Qed.

Example parse_without_escape : parseResponse (bytes "XY") = Err invalid_format.
Proof. reflexivity. Qed.

Example parse_escape_at_end :
  parseResponse (bytes "XY" ++ [x1b]) = Err incomplete.
Proof. reflexivity. Qed.

(** A card is read: the line is quiet, then brings the block, the escape
    byte and the status '0' in one read. *)
Example read_tracks_answered :
  let block := encodeISODataBlock (bytes "A") (bytes "B") (bytes "C") in
  let line := [ {| ev_data := []; ev_err := false; ev_wait := 100 |};
                {| ev_data := block ++ [x1b; x30]; ev_err := false; ev_wait := 40 |} ] in
  let m := {| port := {| rx := line; wr := []; written := [];
                         read_timeout := 0; now := 0 |} |} in
  ReadTracks m
  = (Ok {| Track1 := bytes "A"; Track2 := bytes "B"; Track3 := bytes "C" |},
     {| port := {| rx := []; wr := []; written := [[x1b; x72]];
                   read_timeout := 100; now := 240 |} |}).
Proof. vm_compute. reflexivity. Qed.

(** The same with the status '1'. *)
Example read_tracks_refused :
  let line := [ {| ev_data := []; ev_err := false; ev_wait := 100 |};
                {| ev_data := [x1b; x31]; ev_err := false; ev_wait := 40 |} ] in
  let m := {| port := {| rx := line; wr := []; written := [];
                         read_timeout := 0; now := 0 |} |} in
  (ReadTracks m).1 = Err (fmt_Errorf "read error: %c" [ArgByte x31]).
Proof. vm_compute. reflexivity. Qed.

(** ** Lengths, slices and searches *)

Lemma len_nonneg (s : gostring) : 0 <= len s.
Proof. unfold len. lia. Qed.

Lemma len_nil : len [] = 0.
Proof. reflexivity. Qed.

Lemma len_cons (b : byte) (s : gostring) : len (b :: s) = 1 + len s.
Proof. unfold len. rewrite length_cons. lia. Qed.

Lemma len_app (s t : gostring) : len (s ++ t) = len s + len t.
Proof. unfold len. rewrite length_app. lia. Qed.

Lemma len_zero (s : gostring) : len s = 0 -> s = [].
Proof. destruct s; [done | rewrite len_cons; pose proof (len_nonneg s); lia]. Qed.

Lemma slice_ok (s : gostring) (lo hi : Z) :
  0 <= lo -> lo <= hi -> hi <= len s ->
  slice s lo hi = Ok (take (Z.to_nat (hi - lo)) (drop (Z.to_nat lo) s)).
Proof. intros. unfold slice. rewrite bool_decide_true; [done | lia]. Qed.

Lemma slice_Ok_inv (s r : gostring) (lo hi : Z) :
  slice s lo hi = Ok r ->
  (0 <= lo /\ lo <= hi /\ hi <= len s)
  /\ r = take (Z.to_nat (hi - lo)) (drop (Z.to_nat lo) s).
Proof. unfold slice. case_bool_decide; [| done]. intros [= <-]. done. Qed.

Lemma slice_Panic_inv (s : gostring) (lo hi : Z) :
  slice s lo hi = Panic -> ~ (0 <= lo /\ lo <= hi /\ hi <= len s).
Proof. unfold slice. case_bool_decide; done. Qed.

Lemma slice_no_Err (s : gostring) (lo hi : Z) (e : error) :
  slice s lo hi <> Err e.
Proof. unfold slice. case_bool_decide; done. Qed.

Lemma slice_len (s r : gostring) (lo hi : Z) :
  slice s lo hi = Ok r -> len r = hi - lo.
Proof.
  intros [Hb ->]%slice_Ok_inv. unfold len in *.
  rewrite length_take, length_drop. lia.
Qed.

Lemma slice_lookup (s r : gostring) (lo hi k : Z) :
  slice s lo hi = Ok r -> 0 <= k < hi - lo ->
  r !! Z.to_nat k = s !! Z.to_nat (lo + k).
Proof.
  intros [Hb ->]%slice_Ok_inv Hk.
  rewrite lookup_take_lt by lia. rewrite lookup_drop. f_equal. lia.
Qed.

(** The slice that covers [b] in [a ++ b ++ c]. *)
Lemma slice_parts (s a b c : gostring) (lo hi : Z) :
  s = a ++ b ++ c -> lo = len a -> hi = len a + len b ->
  slice s lo hi = Ok b.
Proof.
  intros -> -> ->. pose proof (len_nonneg a). pose proof (len_nonneg b).
  pose proof (len_nonneg c).
  rewrite slice_ok by (rewrite ?len_app; lia).
  f_equal. unfold len. rewrite Nat2Z.id.
  rewrite drop_app_length.
  replace (Z.to_nat _) with (length b) by lia.
  by rewrite take_app_length.
Qed.

Lemma at_index_Ok_inv (s : gostring) (i : Z) (b : byte) :
  at_index s i = Ok b -> 0 <= i < len s /\ s !! Z.to_nat i = Some b.
Proof.
  unfold at_index. case_bool_decide; [| done].
  destruct (s !! Z.to_nat i) eqn:E; [| done].
  intros [= ->]. apply lookup_lt_Some in E as Hlt. unfold len. split; [lia | done].
Qed.

Lemma at_index_ok (s : gostring) (i : Z) :
  0 <= i < len s -> exists b, at_index s i = Ok b /\ s !! Z.to_nat i = Some b.
Proof.
  intros Hi. unfold at_index, len in *. rewrite bool_decide_true by lia.
  destruct (lookup_lt_is_Some_2 s (Z.to_nat i)) as [b Hb]; [lia |].
  exists b. by rewrite Hb.
Qed.

Lemma at_index_no_Err (s : gostring) (i : Z) (e : error) : at_index s i <> Err e.
Proof. unfold at_index. case_bool_decide; [destruct (s !! _) |]; done. Qed.

Lemma has_prefix_byte (s : gostring) (b : byte) :
  has_prefix s [b] = true <-> exists t, s = b :: t.
Proof.
  destruct s as [| c s]; simpl.
  - split; [done | intros [t Ht]; done].
  - rewrite andb_true_r. rewrite bool_decide_eq_true.
    split; [intros ->; eauto | intros [t [= -> _]]; done].
Qed.

(** [strings.Index] for a needle of one byte: -1 when the byte is absent, and
    otherwise the length of the part before its first occurrence. *)
Lemma index_from_byte (s : gostring) (b : byte) (i : Z) :
  ((b ∉ s) /\ index_from s [b] i = -1)
  \/ (exists before after, s = before ++ b :: after /\ (b ∉ before)
        /\ index_from s [b] i = i + len before).
Proof.
  revert i. induction s as [| c s IH]; intros i.
  - left. split; [apply not_elem_of_nil | done].
  - cbn [index_from]. destruct (has_prefix (c :: s) [b]) eqn:Hp.
    + apply has_prefix_byte in Hp as [t [= -> ->]].
      right. exists [], t. rewrite len_nil. repeat split; [apply not_elem_of_nil | lia].
    + assert (b <> c) as Hne.
      { intros ->. rewrite <- not_true_iff_false in Hp. apply Hp, has_prefix_byte. eauto. }
      destruct (IH (i + 1)) as [[Hnot ->] | (before & after & -> & Hnot & ->)].
      * left. split; [| done]. rewrite not_elem_of_cons. done.
      * right. exists (c :: before), after. rewrite len_cons.
        repeat split; [rewrite not_elem_of_cons; done | lia].
Qed.

Lemma strings_Index_byte (s : gostring) (b : byte) :
  ((b ∉ s) /\ strings_Index s [b] = -1)
  \/ (exists before after, s = before ++ b :: after /\ (b ∉ before)
        /\ strings_Index s [b] = len before).
Proof.
  destruct (index_from_byte s b 0) as [? | (x & y & ? & ? & ?)]; [by left |].
  right. exists x, y. unfold strings_Index. repeat split; [done .. | lia].
Qed.

Lemma strings_Index_range (s : gostring) (b : byte) :
  strings_Index s [b] = -1 \/ 0 <= strings_Index s [b] < len s.
Proof.
  destruct (strings_Index_byte s b) as [[_ ->] | (x & y & -> & _ & ->)]; [by left |].
  right. rewrite len_app, len_cons.
  pose proof (len_nonneg x). pose proof (len_nonneg y). lia.
Qed.

Lemma strings_Index_found (before after : gostring) (b : byte) :
  b ∉ before -> strings_Index (before ++ b :: after) [b] = len before.
Proof.
  intros Hnot.
  destruct (strings_Index_byte (before ++ b :: after) b)
    as [[Habs _] | (x & y & Heq & Hx & ->)].
  - exfalso. apply Habs. set_solver.
  - f_equal. revert x Heq Hx. induction before as [| c before IH]; intros x Heq Hx.
    + destruct x as [| d x]; [done |]. simplify_eq/=. exfalso. apply Hx. set_solver.
    + destruct x as [| d x]; simplify_eq/=.
      * exfalso. apply Hnot. set_solver.
      * f_equal. apply IH; [set_solver | done | set_solver].
Qed.

(** [strings.LastIndex] for a needle of one byte. *)
Lemma last_index_from_byte (s : gostring) (b : byte) (i : Z) :
  0 <= i ->
  ((b ∉ s) /\ last_index_from s [b] i = -1)
  \/ (exists before after, s = before ++ b :: after /\ (b ∉ after)
        /\ last_index_from s [b] i = i + len before).
Proof.
  revert i. induction s as [| c s IH]; intros i Hi.
  - left. split; [apply not_elem_of_nil | done].
  - cbn [last_index_from].
    destruct (IH (i + 1) ltac:(lia)) as [[Hnot ->] | (before & after & -> & Hnot & ->)].
    + rewrite bool_decide_true by done.
      destruct (has_prefix (c :: s) [b]) eqn:Hp.
      * apply has_prefix_byte in Hp as [t [= -> ->]].
        right. exists [], t. rewrite len_nil. repeat split; [done | lia].
      * left. split; [| done]. rewrite not_elem_of_cons. split; [| done].
        intros ->. rewrite <- not_true_iff_false in Hp. apply Hp, has_prefix_byte. eauto.
    + pose proof (len_nonneg before).
      rewrite bool_decide_false by lia.
      right. exists (c :: before), after. rewrite len_cons.
      repeat split; [done | lia].
Qed.

Lemma strings_LastIndex_byte (s : gostring) (b : byte) :
  ((b ∉ s) /\ strings_LastIndex s [b] = -1)
  \/ (exists before after, s = before ++ b :: after /\ (b ∉ after)
        /\ strings_LastIndex s [b] = len before).
Proof.
  destruct (last_index_from_byte s b 0) as [? | (x & y & ? & ? & ?)]; [done | by left |].
  right. exists x, y. unfold strings_LastIndex. repeat split; [done .. | lia].
Qed.

Lemma Index_Escape_range (s : gostring) :
  strings_Index s EscapeCode = -1 \/ 0 <= strings_Index s EscapeCode < len s.
Proof. apply strings_Index_range. Qed.

Lemma at_index_Panic_inv (s : gostring) (i : Z) :
  at_index s i = Panic -> ~ (0 <= i < len s).
Proof.
  intros Hp Hi. destruct (at_index_ok s i Hi) as (b & Hb & _). congruence.
Qed.

(** The marker of track 3 cannot overlap the terminator. *)
Lemma marker_3_before_end (data : gostring) (e : Z) :
  slice data (len data - 2) (len data) = Ok ([x3f] ++ EndCode) ->
  slice data e (e + 2) = Ok (EscapeCode ++ [x03]) ->
  e + 2 < len data ->
  e + 2 <= len data - 2.
Proof.
  intros Hend Hmark Hlt.
  destruct (decide (e + 2 = len data - 1)) as [Heq |]; [| lia].
  pose proof (slice_lookup _ _ _ _ 0 Hend ltac:(lia)) as H0.
  pose proof (slice_lookup _ _ _ _ 1 Hmark ltac:(lia)) as H1.
  replace (len data - 2 + 0) with (e + 1) in H0 by lia.
  rewrite <- H1 in H0. done.
Qed.

(** One step through [decodeISODataBlock]: a test is decided both ways, an
    index or a slice is taken with each of its outcomes. *)
Ltac crack :=
  cbn [bind orelse andalso negb];
  change (at_index EscapeCode 0) with (@Ok byte x1b);
  match goal with
  | |- context [bool_decide ?P] => destruct (bool_decide_reflect P)
  | |- context [at_index ?s ?i] =>
      let E := fresh "Ha" in destruct (at_index s i) eqn:E;
      [ | exfalso; exact (at_index_no_Err _ _ _ E) | apply at_index_Panic_inv in E ]
  | |- context [slice ?s ?lo ?hi] =>
      let E := fresh "Hs" in
      let r := fresh "r" in
      destruct (slice s lo hi) as [r | |] eqn:E;
      [ pose proof (slice_len _ _ _ _ E); pose proof (Index_Escape_range r)
      | exfalso; exact (slice_no_Err _ _ _ _ E)
      | apply slice_Panic_inv in E ]
  end.


(** ** The codec *)

(** Closed decidable statements, by evaluation. *)
Ltac decided := apply (bool_decide_unpack _); vm_compute; exact I.

(** Lengths of concatenations, and lists equal up to the bracketing of
    their parts. *)
Ltac lens := rewrite ?len_app, ?len_cons, ?len_nil; lia.
Ltac parts := repeat (progress (simpl; rewrite <- ?app_assoc)); reflexivity.

Lemma at_index_parts (s a c : gostring) (b : byte) (i : Z) :
  s = a ++ b :: c -> i = len a -> at_index s i = Ok b.
Proof.
  intros -> ->. unfold at_index, len. rewrite bool_decide_true by lia.
  rewrite Nat2Z.id. by rewrite list_lookup_middle.
Qed.

(** The scan of a field that holds text: it ends at the escape byte that
    follows the text. *)
Lemma scan_text (data before s after : gostring) (lo : Z) :
  s <> [] -> x1b ∉ s ->
  data = before ++ s ++ x1b :: after -> lo = len before ->
  exists rest,
    slice data lo (len data) = Ok rest
    /\ strings_Index rest EscapeCode <> -1
    /\ (if bool_decide (strings_Index rest EscapeCode + lo = lo)
        then Ok (strings_Index rest EscapeCode + lo + 2, [])
        else s <- slice data lo (strings_Index rest EscapeCode + lo) ;;
             Ok (strings_Index rest EscapeCode + lo, s))
       = Ok (lo + len s, s).
Proof.
  intros Hne Hfree -> ->. exists (s ++ x1b :: after).
  pose proof (len_nonneg before). pose proof (len_nonneg after).
  pose proof (len_nonneg s).
  assert (len s <> 0) by (intros ?%len_zero; done).
  split.
  { apply (slice_parts _ before _ []); [by rewrite app_nil_r | done | lens]. }
  unfold EscapeCode. rewrite strings_Index_found by done.
  split; [lia |].
  rewrite bool_decide_false by lia.
  rewrite (slice_parts _ before s (x1b :: after)); [| parts | lia | lia].
  cbn [bind]. do 2 f_equal. lia.
Qed.

(** The scan of a field that opens with an escape byte: it reads no text and
    steps over two bytes. *)
Lemma scan_blank (data before after : gostring) (lo : Z) :
  data = before ++ x1b :: after -> lo = len before ->
  exists rest,
    slice data lo (len data) = Ok rest
    /\ strings_Index rest EscapeCode <> -1
    /\ (if bool_decide (strings_Index rest EscapeCode + lo = lo)
        then Ok (strings_Index rest EscapeCode + lo + 2, [])
        else s <- slice data lo (strings_Index rest EscapeCode + lo) ;;
             Ok (strings_Index rest EscapeCode + lo, s))
       = Ok (lo + 2, []).
Proof.
  intros -> ->. exists (x1b :: after).
  pose proof (len_nonneg before). pose proof (len_nonneg after).
  split.
  { apply (slice_parts _ before _ []); [by rewrite app_nil_r | done | lens]. }
  unfold EscapeCode.
  assert (strings_Index (x1b :: after) [x1b] = 0) as ->
    by apply (strings_Index_found [] after x1b), not_elem_of_nil.
  split; [lia |].
  rewrite bool_decide_true by lia. do 2 f_equal; lia.
Qed.

Lemma field_scan (data before wire value after : gostring) (k : byte) (lo : Z) :
  field wire value ->
  data = before ++ wire ++ [x1b; k] ++ after -> lo = len before ->
  exists rest,
    slice data lo (len data) = Ok rest
    /\ strings_Index rest EscapeCode <> -1
    /\ (if bool_decide (strings_Index rest EscapeCode + lo = lo)
        then Ok (strings_Index rest EscapeCode + lo + 2, [])
        else s <- slice data lo (strings_Index rest EscapeCode + lo) ;;
             Ok (strings_Index rest EscapeCode + lo, s))
       = Ok (lo + len wire, value).
Proof.
  intros [s Hne Hfree | p] Hd Hlo.
  - by apply (scan_text data before s (k :: after)).
  - by apply (scan_blank data before (p :: [x1b; k] ++ after)).
Qed.

(** No marker [ESC k] where the bytes at [lo] are others. *)
Lemma no_marker_at (data before rest : gostring) (k : byte) (lo : Z) :
  data = before ++ rest -> lo = len before -> lo + 2 <= len data ->
  (forall tail, rest <> x1b :: k :: tail) ->
  (m <- slice data lo (lo + 2) ;;
   Ok (negb (bool_decide (m = EscapeCode ++ [k])))) = Ok true.
Proof.
  intros -> -> Hlen Hrest. pose proof (len_nonneg before).
  rewrite slice_ok by lia. cbn [bind].
  rewrite bool_decide_false; [done |].
  replace (Z.to_nat (len before)) with (length before) by (unfold len; lia).
  rewrite drop_app_length.
  replace (Z.to_nat _) with 2%nat by lia.
  destruct rest as [| a [| b tail]]; [done | done |].
  intros [= -> ->]. by apply (Hrest tail).
Qed.

Lemma decode_empty_track1 (t2 t3 : gostring) :
  x1b ∉ t2 ->
  decodeISODataBlock (encodeISODataBlock [] t2 t3)
  = Err (fmt_Errorf no_marker_2 [ArgInt 6]).
Proof.
  intros Hfree. unfold encodeISODataBlock. set (data := _ ++ _).
  pose proof (len_nonneg t2). pose proof (len_nonneg t3).
  assert (len data = 4 + 2 + len t2 + 2 + len t3 + 2) as Hlen by (unfold data; lens).
  unfold decodeISODataBlock.
  rewrite bool_decide_false by lia. cbn [orelse bind].
  rewrite (slice_parts data [] [x1b; x73; x1b; x01] ([x1b; x02] ++ t2 ++ [x1b; x03] ++ t3 ++ [x3f; x1c]));
    [| done | done | done].
  cbn [bind]. rewrite bool_decide_true by done. cbn [negb].
  rewrite bool_decide_false by lia. cbn [orelse bind].
  rewrite (slice_parts data ([x1b; x73; x1b; x01] ++ [x1b; x02] ++ t2 ++ [x1b; x03] ++ t3) [x3f; x1c] []);
    [| unfold data; parts | lens | lens].
  cbn [bind]. rewrite bool_decide_true by done. cbn [negb].
  destruct (scan_blank data [x1b; x73; x1b; x01] (x02 :: t2 ++ [x1b; x03] ++ t3 ++ [x3f; x1c]) 4)
    as (rest1 & Hs1 & Hi1 & Hf1); [done | done |].
  rewrite Hs1. cbn [bind]. rewrite bool_decide_false by done.
  rewrite Hf1. cbn [bind].
  rewrite bool_decide_false by lia. cbn [orelse].
  rewrite (no_marker_at data [x1b; x73; x1b; x01; x1b; x02] (t2 ++ [x1b; x03] ++ t3 ++ [x3f; x1c]));
    [done | done | done | lia |].
  intros tail. destruct t2 as [| c t2]; [done |].
  intros [= -> _]. apply Hfree. set_solver.
Qed.

Lemma decode_empty_track2 (t1 t3 : gostring) :
  t1 <> [] -> x1b ∉ t1 -> x1b ∉ t3 ->
  decodeISODataBlock (encodeISODataBlock t1 [] t3)
  = Err (fmt_Errorf no_marker_3 [ArgInt (4 + len t1 + 2 + 2)]).
Proof.
  intros Hne Hfree1 Hfree3. unfold encodeISODataBlock. set (data := _ ++ _).
  pose proof (len_nonneg t1). pose proof (len_nonneg t3).
  assert (len data = 4 + len t1 + 2 + 2 + len t3 + 2) as Hlen by (unfold data; lens).
  unfold decodeISODataBlock.
  rewrite bool_decide_false by lia. cbn [orelse bind].
  rewrite (slice_parts data [] [x1b; x73; x1b; x01] (t1 ++ [x1b; x02] ++ [] ++ [x1b; x03] ++ t3 ++ [x3f; x1c]));
    [| done | done | done].
  cbn [bind]. rewrite bool_decide_true by done. cbn [negb].
  rewrite bool_decide_false by lia. cbn [orelse bind].
  rewrite (slice_parts data ([x1b; x73; x1b; x01] ++ t1 ++ [x1b; x02] ++ [x1b; x03] ++ t3) [x3f; x1c] []);
    [| unfold data; parts | lens | lens].
  cbn [bind]. rewrite bool_decide_true by done. cbn [negb].
  destruct (scan_text data [x1b; x73; x1b; x01] t1 (x02 :: [] ++ [x1b; x03] ++ t3 ++ [x3f; x1c]) 4)
    as (rest1 & Hs1 & Hi1 & Hf1); [done | done | done | done |].
  rewrite Hs1. cbn [bind]. rewrite bool_decide_false by done.
  rewrite Hf1. cbn [bind].
  rewrite bool_decide_false by lia. cbn [orelse bind].
  rewrite (slice_parts data ([x1b; x73; x1b; x01] ++ t1) [x1b; x02] ([] ++ [x1b; x03] ++ t3 ++ [x3f; x1c]));
    [| unfold data; parts | lens | lens].
  cbn [bind]. rewrite bool_decide_true by done. cbn [negb].
  destruct (scan_blank data ([x1b; x73; x1b; x01] ++ t1 ++ [x1b; x02]) (x03 :: t3 ++ [x3f; x1c]) (4 + len t1 + 2))
    as (rest2 & Hs2 & Hi2 & Hf2); [unfold data; parts | lens |].
  rewrite Hs2. cbn [bind]. rewrite bool_decide_false by done.
  rewrite Hf2. cbn [bind].
  destruct (bool_decide_reflect (4 + len t1 + 2 + 2 + 2 >= len data)); [done |].
  cbn [orelse].
  rewrite (no_marker_at data ([x1b; x73; x1b; x01] ++ t1 ++ [x1b; x02] ++ [x1b; x03]) (t3 ++ [x3f; x1c]));
    [done | unfold data; parts | lens | lia |].
  intros tail. destruct t3 as [| c t3]; [done |].
  intros [= -> _]. apply Hfree3. set_solver.
Qed.

(** A block whose first two fields are well formed decodes to their values. *)
Lemma decode_block (w1 v1 w2 v2 t3 : gostring) :
  field w1 v1 -> field w2 v2 -> head t3 <> Some x1b ->
  decodeISODataBlock
    ([x1b; x73; x1b; x01] ++ w1 ++ [x1b; x02] ++ w2 ++ [x1b; x03] ++ t3 ++ [x3f; x1c])
  = Ok (v1, v2, t3).
Proof.
  intros H1 H2 H3.
  set (data := _ ++ _).
  pose proof (len_nonneg w1). pose proof (len_nonneg w2). pose proof (len_nonneg t3).
  assert (len data = 4 + len w1 + 2 + len w2 + 2 + len t3 + 2) as Hlen by (unfold data; lens).
  unfold decodeISODataBlock.
  rewrite bool_decide_false by lia. cbn [orelse bind].
  rewrite (slice_parts data [] [x1b; x73; x1b; x01] (w1 ++ [x1b; x02] ++ w2 ++ [x1b; x03] ++ t3 ++ [x3f; x1c]));
    [| done | done | done].
  cbn [bind]. rewrite bool_decide_true by done. cbn [negb].
  rewrite bool_decide_false by lia. cbn [orelse bind].
  rewrite (slice_parts data ([x1b; x73; x1b; x01] ++ w1 ++ [x1b; x02] ++ w2 ++ [x1b; x03] ++ t3) [x3f; x1c] []);
    [| unfold data; parts | lens | lens].
  cbn [bind]. rewrite bool_decide_true by done. cbn [negb].
  destruct (field_scan data [x1b; x73; x1b; x01] w1 v1 (w2 ++ [x1b; x03] ++ t3 ++ [x3f; x1c]) x02 4 H1)
    as (rest1 & Hs1 & Hi1 & Hf1); [done | done |].
  rewrite Hs1. cbn [bind]. rewrite bool_decide_false by done.
  rewrite Hf1. cbn [bind].
  rewrite bool_decide_false by lia. cbn [orelse bind].
  rewrite (slice_parts data ([x1b; x73; x1b; x01] ++ w1) [x1b; x02] (w2 ++ [x1b; x03] ++ t3 ++ [x3f; x1c]));
    [| unfold data; parts | lens | lens].
  cbn [bind]. rewrite bool_decide_true by done. cbn [negb].
  destruct (field_scan data ([x1b; x73; x1b; x01] ++ w1 ++ [x1b; x02]) w2 v2 (t3 ++ [x3f; x1c]) x03 (4 + len w1 + 2) H2)
    as (rest2 & Hs2 & Hi2 & Hf2); [unfold data; parts | lens |].
  rewrite Hs2. cbn [bind]. rewrite bool_decide_false by done.
  rewrite Hf2. cbn [bind].
  rewrite bool_decide_false by lia. cbn [orelse bind].
  rewrite (slice_parts data ([x1b; x73; x1b; x01] ++ w1 ++ [x1b; x02] ++ w2) [x1b; x03] (t3 ++ [x3f; x1c]));
    [| unfold data; parts | lens | lens].
  cbn [bind]. rewrite bool_decide_true by done. cbn [negb].
  rewrite bool_decide_true by lia. cbn [andalso].
  assert (exists c rest, t3 ++ [x3f; x1c] = c :: rest /\ c <> x1b) as (c & rest & Hc & Hne).
  { destruct t3 as [| c t3]; [by exists x3f, [x1c] |].
    exists c, (t3 ++ [x3f; x1c]). split; [done |]. intros ->. by apply H3. }
  rewrite (at_index_parts data ([x1b; x73; x1b; x01] ++ w1 ++ [x1b; x02] ++ w2 ++ [x1b; x03]) rest c);
    [| unfold data; rewrite <- Hc; parts | lens].
  cbn [bind]. change (at_index EscapeCode 0) with (@Ok byte x1b). cbn [bind].
  rewrite bool_decide_false by done. cbn [negb].
  rewrite (slice_parts data ([x1b; x73; x1b; x01] ++ w1 ++ [x1b; x02] ++ w2 ++ [x1b; x03]) t3 [x3f; x1c]);
    [| unfold data; parts | lens | lens].
  done.
Qed.

(** C9: [decodeISODataBlock] returns a triple or an error on every input: no
    index and no slice bound it evaluates is out of range. *)
Theorem decode_never_panics (data : gostring) :
  (exists strips, decodeISODataBlock data = Ok strips)
  \/ (exists e, decodeISODataBlock data = Err e).
Proof.
  assert (decodeISODataBlock data <> Panic) as Hno.
  { unfold decodeISODataBlock.
    pose proof (len_nonneg data).
    repeat (crack; try done; try lia).
    all: subst.
    all: match goal with
         | Hend : slice ?d (len ?d - 2) (len ?d) = Ok _,
           Hm : slice ?d ?e (?e + 2) = Ok (EscapeCode ++ [x03]) |- _ =>
             pose proof (marker_3_before_end d e Hend Hm ltac:(lia))
         end.
    all: lia. }
  destruct (decodeISODataBlock data); [left | right |]; eauto. done.
Qed.

(** C5: [decodeISODataBlock] fails with the header error exactly when the
    input has fewer than 4 bytes or does not start with ESC 's' ESC 0x01; so
    it does for "INVALID" and for the single byte ESC. *)
Theorem decode_bad_header (data : gostring) :
  ((len data < 4 \/ take 4 data <> [x1b; x73; x1b; x01]) ->
   decodeISODataBlock data = Err (fmt_Errorf bad_header [ArgString data]))
  /\ (~ (len data < 4 \/ take 4 data <> [x1b; x73; x1b; x01]) ->
      forall args, decodeISODataBlock data <> Err (fmt_Errorf bad_header args))
  /\ decodeISODataBlock (bytes "INVALID")
     = Err (fmt_Errorf bad_header [ArgString (bytes "INVALID")])
  /\ decodeISODataBlock [x1b] = Err (fmt_Errorf bad_header [ArgString [x1b]]).
Proof.
  split; [| split; [| split; reflexivity]].
  - intros Hbad. unfold decodeISODataBlock.
    destruct (bool_decide_reflect (len data < 4)) as [| Hlen]; [done |].
    destruct Hbad as [| Hbad]; [done |].
    cbn [orelse bind]. pose proof (len_nonneg data).
    rewrite slice_ok by lia. cbn [bind].
    rewrite bool_decide_false; [done |].
    intros Heq. apply Hbad. exact Heq.
  - intros Hgood args. unfold decodeISODataBlock.
    pose proof (len_nonneg data).
    repeat (crack; try done; try lia).
    all: cbn [bind orelse andalso negb]; intros _; apply Hgood; right.
    all: match goal with Hs : slice _ 0 4 = Ok ?r |- _ =>
           apply slice_Ok_inv in Hs as [_ ->] end.
    all: done.
Qed.

(** C1, amended: for tracks free of escape bytes, decoding what
    [encodeISODataBlock] produced gives the three tracks back exactly when
    track 1 and track 2 are not empty (track 3 may be). *)
Theorem roundtrip_nonempty_tracks (t1 t2 t3 : gostring) :
  x1b ∉ t1 -> x1b ∉ t2 -> x1b ∉ t3 ->
  decodeISODataBlock (encodeISODataBlock t1 t2 t3) = Ok (t1, t2, t3)
  <-> t1 <> [] /\ t2 <> [].
Proof.
  intros Hf1 Hf2 Hf3. split.
  - intros Hok. split; intros ->.
    + rewrite decode_empty_track1 in Hok by done. done.
    + destruct (decide (t1 = [])) as [-> | Hne].
      * rewrite decode_empty_track1 in Hok by done. done.
      * rewrite decode_empty_track2 in Hok by done. done.
  - intros [Hn1 Hn2]. apply decode_block; [by constructor | by constructor |].
    destruct t3 as [| c t3]; [done |]. intros [= ->]. apply Hf3. set_solver.
Qed.

(** C1, amended, at the tracks "A", "B" and an empty track 3. *)
Lemma roundtrip_nonempty_tracks_witness :
  decodeISODataBlock (encodeISODataBlock (bytes "A") (bytes "B") [])
  = Ok (bytes "A", bytes "B", [])
  <-> bytes "A" <> [] /\ bytes "B" <> [].
Proof.
  apply (roundtrip_nonempty_tracks (bytes "A") (bytes "B") []); decided.
Defined.

(** C1 as stated fails: with an empty track 2 the decoder reports a missing
    marker. *)
Lemma roundtrip_fails_on_empty_track :
  ~ (forall t1 t2 t3 : gostring,
       x1b ∉ t1 -> x1b ∉ t2 -> x1b ∉ t3 ->
       decodeISODataBlock (encodeISODataBlock t1 t2 t3) = Ok (t1, t2, t3)).
Proof.
  intros Hall.
  assert (x1b ∉ bytes "A") as Ha by decided.
  assert (x1b ∉ bytes "C") as Hc by decided.
  pose proof (Hall (bytes "A") [] (bytes "C") Ha (not_elem_of_nil _) Hc) as Hok.
  vm_compute in Hok. discriminate Hok.
Qed.

(** C2, amended: the block of ("", "B", "C") is refused for want of the
    track 2 marker at offset 6; an empty first field is read when the escape
    byte at offset 4 opens two bytes of its own that come before the marker. *)
Theorem empty_first_field_needs_placeholder :
  decodeISODataBlock (encodeISODataBlock [] (bytes "B") (bytes "C"))
  = Err (fmt_Errorf no_marker_2 [ArgInt 6])
  /\ forall p : byte,
      decodeISODataBlock
        ([x1b; x73; x1b; x01] ++ [x1b; p] ++ [x1b; x02] ++ bytes "B"
           ++ [x1b; x03] ++ bytes "C" ++ [x3f; x1c])
      = Ok ([], bytes "B", bytes "C").
Proof.
  split; [reflexivity |].
  intros p. apply decode_block; [constructor | | done].
  constructor; [done | decided].
Qed.

(** C2 as stated fails: the block of ("", "B", "C") does not decode. *)
Lemma empty_first_field_rejected :
  decodeISODataBlock (encodeISODataBlock [] (bytes "B") (bytes "C"))
  <> Ok ([], bytes "B", bytes "C").
Proof. vm_compute. discriminate. Qed.

(** ** Loops *)

Section Iterate.
Context {St R : Type} (body : St -> pass St R).

Lemma iterate_more (n m : nat) (s : St) (r : R) :
  iterate n body s = Some r -> (n <= m)%nat -> iterate m body s = Some r.
Proof.
  revert m s. induction n as [| n IH]; intros m s Hrun Hle; [done |].
  destruct m as [| m]; [lia |]. simpl in *.
  destruct (body s); [| done]. apply IH; [done | lia].
Qed.

(** A loop whose passes lower a measure ends within that many passes. *)
Lemma iterate_ends (mu : St -> nat) :
  (forall s s', body s = Again s' -> (mu s' < mu s)%nat) ->
  forall fuel s, (mu s < fuel)%nat -> is_Some (iterate fuel body s).
Proof.
  intros Hdec fuel. induction fuel as [| fuel IH]; intros s Hlt; [lia |].
  simpl. destruct (body s) as [s' | r] eqn:Hb; [| by eexists].
  apply IH. specialize (Hdec _ _ Hb). lia.
Qed.

(** What every pass keeps holds when the loop is left. *)
Lemma iterate_keeps (I : St -> Prop) (Q : R -> Prop) :
  (forall s s', I s -> body s = Again s' -> I s') ->
  (forall s r, I s -> body s = Leave r -> Q r) ->
  forall fuel s r, I s -> iterate fuel body s = Some r -> Q r.
Proof.
  intros Hagain Hleave fuel. induction fuel as [| fuel IH]; intros s r Hs Hrun; [done |].
  simpl in Hrun. destruct (body s) as [s' | r'] eqn:Hb.
  - eapply IH; [| done]. eauto.
  - simplify_eq. eauto.
Qed.
End Iterate.

(** ** The port *)

Lemma later_refl (p : Port) : later p p.
Proof. unfold later. repeat split; [lia | done]. Qed.

Lemma later_trans (p q r : Port) : later p q -> later q r -> later p r.
Proof.
  unfold later. intros (? & ? & ? & ? & ?) (? & ? & ? & ? & ?).
  repeat split; [congruence .. | lia | by etrans].
Qed.

Lemma port_Read_later (cap : Z) (p : Port) : later p (port_Read cap p).2.
Proof.
  unfold port_Read, later. destruct (rx p) as [| ev q] eqn:Hrx; simpl.
  - repeat split; [lia | done].
  - repeat split; [lia | by apply suffix_cons_r].
Qed.

Lemma time_Sleep_later (d : Z) (p : Port) : later p (time_Sleep d p).
Proof. unfold time_Sleep, later. simpl. repeat split; [lia | done]. Qed.

(** ** The loops of the engine *)

Lemma clearBody_lowers (p p' : Port) :
  clearBody p = Again p' -> (length (rx p') < length (rx p))%nat.
Proof.
  unfold clearBody, port_Read. destruct (rx p) as [| ev q]; [done |].
  case_bool_decide; [done |]. intros [= <-]. simpl. lia.
Qed.

Lemma clearInput_runs (p : Port) :
  is_Some (iterate (S (length (rx p))) clearBody p).
Proof. apply (iterate_ends clearBody (fun p => length (rx p))); [apply clearBody_lowers | lia]. Qed.

Lemma clearInput_unfold (p : Port) :
  clearInput p = match clearBody p with
                 | Leave q => q
                 | Again q => clearInput q
                 end.
Proof.
  unfold clearInput at 1. simpl.
  destruct (clearBody p) as [q | q] eqn:Hb; [| done].
  unfold clearInput. destruct (clearInput_runs q) as [r Hr].
  rewrite Hr. apply clearBody_lowers in Hb.
  by rewrite (iterate_more _ _ (length (rx p)) _ _ Hr) by lia.
Qed.

Lemma clearInput_later (p : Port) : later p (clearInput p).
Proof.
  unfold clearInput. destruct (clearInput_runs p) as [r Hr]. rewrite Hr. simpl.
  revert Hr. apply (iterate_keeps clearBody (later p) (later p)); [| | apply later_refl].
  - intros s s' Hs. unfold clearBody.
    pose proof (port_Read_later 1024 s). destruct (port_Read 1024 s) as [[chunk err] q].
    case_bool_decide; [done |]. intros [= <-]. by eapply later_trans.
  - intros s r' Hs. unfold clearBody.
    pose proof (port_Read_later 1024 s). destruct (port_Read 1024 s) as [[chunk err] q].
    case_bool_decide; [| done]. intros [= <-]. by eapply later_trans.
Qed.

Lemma pollBody_lowers (startTime timeout : Z) (st st' : gostring * Port) :
  pollBody startTime timeout st = Again st' ->
  (pollMeasure startTime timeout st' < pollMeasure startTime timeout st)%nat.
Proof.
  destruct st as [response p]. unfold pollBody, pollMeasure.
  case_bool_decide as Hin; [| done]. cbn [negb].
  unfold port_Read. destruct (rx p) as [| ev q] eqn:Hrx.
  - cbn [len length Z.of_nat andb].
    rewrite (bool_decide_false (0 > 0)) by lia.
    rewrite (bool_decide_true (0 = 0)) by done. cbn [andb].
    intros [= <-]. simpl. rewrite Hrx. simpl.
    unfold time_Millisecond. lia.
  - destruct (ev_err ev && _); [done |].
    destruct (_ && _); [done |].
    intros [= <-]. repeat case_bool_decide; simpl; rewrite ?Hrx; simpl; lia.
Qed.

Lemma pollLoop_runs (startTime timeout : Z) (response : gostring) (p : Port) :
  is_Some (iterate (pollFuel startTime timeout p) (pollBody startTime timeout)
             (response, p)).
Proof.
  apply (iterate_ends _ (pollMeasure startTime timeout));
    [apply pollBody_lowers | unfold pollMeasure, pollFuel; simpl; lia].
Qed.

Lemma pollLoop_unfold (startTime timeout : Z) (response : gostring) (p : Port) :
  pollLoop startTime timeout response p
  = match pollBody startTime timeout (response, p) with
    | Leave r => r
    | Again (response', p') => pollLoop startTime timeout response' p'
    end.
Proof.
  unfold pollLoop at 1. unfold pollFuel. cbn [iterate].
  destruct (pollBody startTime timeout (response, p)) as [[response' p'] | r] eqn:Hb;
    [| done].
  unfold pollLoop. destruct (pollLoop_runs startTime timeout response' p') as [r Hr].
  rewrite Hr. apply pollBody_lowers in Hb. unfold pollMeasure, pollFuel in *. simpl in Hb.
  by rewrite (iterate_more _ _ (length (rx p) + Z.to_nat (startTime + timeout - now p)) _ _ Hr) by lia.
Qed.

(** One pass of the response loop moves the port on. *)
Lemma pollBody_step (startTime timeout : Z) (response : gostring) (p : Port) :
  match pollBody startTime timeout (response, p) with
  | Again (_, p') | Leave (_, p') => later p p'
  end.
Proof.
  unfold pollBody. case_bool_decide as Hin; cbn [negb]; [| apply later_refl].
  pose proof (port_Read_later 1024 p) as Hl.
  destruct (port_Read 1024 p) as [[chunk err] q]. simpl in Hl.
  destruct (err && _); [done |].
  destruct (_ && _); [done |].
  destruct (bool_decide (len chunk = 0)); [| done].
  eapply later_trans; [done | apply time_Sleep_later].
Qed.

Lemma pollLoop_later (startTime timeout : Z) (response : gostring) (p : Port) :
  later p (pollLoop startTime timeout response p).2.
Proof.
  unfold pollLoop. destruct (pollLoop_runs startTime timeout response p) as [r Hr].
  rewrite Hr. simpl. revert Hr.
  apply (iterate_keeps _ (fun st => later p st.2) (fun st => later p st.2));
    [| | apply later_refl].
  - intros [resp q] [resp' q'] Hq Hb. pose proof (pollBody_step startTime timeout resp q) as Hstep.
    rewrite Hb in Hstep. by eapply later_trans.
  - intros [resp q] [resp' q'] Hq Hb. pose proof (pollBody_step startTime timeout resp q) as Hstep.
    rewrite Hb in Hstep. by eapply later_trans.
Qed.

(** Two loops whose passes agree leave with results that agree. *)
Lemma iterate_agree {St1 St2 R1 R2 : Type}
    (body1 : St1 -> pass St1 R1) (body2 : St2 -> pass St2 R2)
    (Rs : St1 -> St2 -> Prop) (Rr : R1 -> R2 -> Prop) :
  (forall s1 s2, Rs s1 s2 ->
     match body1 s1, body2 s2 with
     | Again a, Again b => Rs a b
     | Leave a, Leave b => Rr a b
     | _, _ => False
     end) ->
  forall fuel1 fuel2 s1 s2 r1 r2,
    Rs s1 s2 -> iterate fuel1 body1 s1 = Some r1 -> iterate fuel2 body2 s2 = Some r2 ->
    Rr r1 r2.
Proof.
  intros Hstep fuel1. induction fuel1 as [| fuel1 IH]; intros fuel2 s1 s2 r1 r2 Hs H1 H2;
    [done |].
  destruct fuel2 as [| fuel2]; [done |]. simpl in H1, H2.
  specialize (Hstep s1 s2 Hs).
  destruct (body1 s1) as [a | a], (body2 s2) as [b | b]; try done.
  - exact (IH _ _ _ _ _ Hstep H1 H2).
  - by simplify_eq.
Qed.

Lemma port_Read_same_line (cap : Z) (p q : Port) :
  same_line p q ->
  (port_Read cap p).1 = (port_Read cap q).1
  /\ same_line (port_Read cap p).2 (port_Read cap q).2
  /\ (read_timeout p = read_timeout q ->
      now (port_Read cap p).2 - now p = now (port_Read cap q).2 - now q
      /\ read_timeout (port_Read cap p).2 = read_timeout (port_Read cap q).2).
Proof.
  intros [Hrx Hwr]. unfold port_Read, same_line. rewrite Hrx.
  destruct (rx q); simpl; (split; [done |]); (split; [done |]); intros ->; split; [lia | done | lia | done].
Qed.

Lemma clearInput_same_line (p q : Port) :
  same_line p q -> same_line (clearInput p) (clearInput q).
Proof.
  intros Hpq. unfold clearInput.
  destruct (clearInput_runs p) as [p' Hp], (clearInput_runs q) as [q' Hq].
  rewrite Hp, Hq. simpl.
  eapply (iterate_agree clearBody clearBody same_line same_line); [| done ..].
  intros s1 s2 Hs. unfold clearBody.
  destruct (port_Read_same_line 1024 s1 s2 Hs) as (Hres & Hline & _).
  destruct (port_Read 1024 s1) as [[chunk1 err1] t1], (port_Read 1024 s2) as [[chunk2 err2] t2].
  simpl in *. simplify_eq. by case_bool_decide.
Qed.

Lemma pollLoop_same_line (start1 start2 timeout : Z) (response : gostring) (p q : Port) :
  same_line p q -> read_timeout p = read_timeout q -> now p - start1 = now q - start2 ->
  (pollLoop start1 timeout response p).1 = (pollLoop start2 timeout response q).1
  /\ same_line (pollLoop start1 timeout response p).2 (pollLoop start2 timeout response q).2.
Proof.
  intros Hpq Hrt Hnow. unfold pollLoop.
  destruct (pollLoop_runs start1 timeout response p) as [r1 H1],
           (pollLoop_runs start2 timeout response q) as [r2 H2].
  rewrite H1, H2. simpl.
  eapply (iterate_agree (pollBody start1 timeout) (pollBody start2 timeout)
            (fun st1 st2 => st1.1 = st2.1 /\ same_line st1.2 st2.2
                            /\ read_timeout st1.2 = read_timeout st2.2
                            /\ now st1.2 - start1 = now st2.2 - start2)
            (fun st1 st2 => st1.1 = st2.1 /\ same_line st1.2 st2.2));
    [| | exact H1 | exact H2]; [| done].
  intros [resp1 s1] [resp2 s2] (Hresp & Hs & Hrts & Hnows). simpl in *. subst resp2.
  unfold pollBody. rewrite Hnows.
  destruct (bool_decide (now s2 - start2 < timeout)); cbn [negb]; [| done].
  destruct (port_Read_same_line 1024 s1 s2 Hs) as (Hres & Hline & Hclock).
  destruct (Hclock Hrts) as [Hadv Hrt'].
  destruct (port_Read 1024 s1) as [[chunk1 err1] t1], (port_Read 1024 s2) as [[chunk2 err2] t2].
  simpl in *. simplify_eq.
  destruct (err2 && _); [done |].
  destruct (_ && _); [done |].
  split; [done |].
  destruct (bool_decide (len chunk2 = 0)); simpl; repeat split; try done; try apply Hline; lia.
Qed.

(** The outcome of a call, and the line it leaves, depend on the line alone:
    not on what was written before, nor on the clock, nor on the read timeout
    an earlier call left. *)
Lemma executeWaitResult_same_line (command : gostring) (timeout : Z) (m1 m2 : MSR) :
  same_line (port m1) (port m2) ->
  (executeWaitResult command timeout m1).1 = (executeWaitResult command timeout m2).1
  /\ same_line (port (executeWaitResult command timeout m1).2)
               (port (executeWaitResult command timeout m2).2).
Proof.
  intros Hm. unfold executeWaitResult.
  destruct (clearInput_same_line _ _ Hm) as [Hrx Hwr].
  set (c1 := clearInput (port m1)) in *. set (c2 := clearInput (port m2)) in *.
  unfold port_Write. rewrite Hwr.
  set (w1 := Build_Port (rx c1) _ _ _ _). set (w2 := Build_Port (rx c2) _ _ _ _).
  destruct (wr c2) as [| [code |] rest] eqn:Hc.
  2: { split; [done |]. by split. }
  all: set (s1 := port_SetReadTimeout timeout (time_Sleep (100 * time_Millisecond) w1)).
  all: set (s2 := port_SetReadTimeout timeout (time_Sleep (100 * time_Millisecond) w2)).
  all: destruct (pollLoop_same_line (now (time_Sleep (100 * time_Millisecond) w1))
                   (now (time_Sleep (100 * time_Millisecond) w2)) timeout [] s1 s2)
         as [Hresp Hline]; [by split | done | simpl; lia |].
  all: destruct (pollLoop _ timeout [] s1) as [resp1 r1], (pollLoop _ timeout [] s2) as [resp2 r2].
  all: simpl in *; subst resp2; split; [done | apply Hline].
Qed.


(** ** The engine *)

(** What a call of [executeWaitResult] leaves on the port: one more write,
    the command behind an escape byte; reads used up, never put back; and,
    once the command went out, the read timeout at 100 ms. *)
Lemma executeWaitResult_port (command : gostring) (timeout : Z) (m : MSR) :
  let p := port m in
  let q := port (executeWaitResult command timeout m).2 in
  written q = written p ++ [EscapeCode ++ command]
  /\ wr q = tail (wr p)
  /\ now p <= now q
  /\ rx q `suffix_of` rx p
  /\ (write_succeeds p -> read_timeout q = 100).
Proof.
  intros p q. subst q. unfold executeWaitResult. fold p.
  destruct (clearInput_later p) as (Hw & Hwr & Hrt & Hnow & Hrx).
  set (c := clearInput p) in *.
  unfold port_Write.
  set (w := Build_Port (rx c) (tail (wr c)) (written c ++ [EscapeCode ++ command])
              (read_timeout c) (now c)).
  destruct (wr c) as [| [code |] rest] eqn:Hc.
  2: { simpl. rewrite Hw. rewrite <- Hwr. repeat split; [done .. |].
       intros Hok. exfalso. eapply Hok. by rewrite <- Hwr. }
  all: set (s := port_SetReadTimeout timeout (time_Sleep (100 * time_Millisecond) w)).
  all: pose proof (pollLoop_later (now (time_Sleep (100 * time_Millisecond) w)) timeout [] s)
         as (Hw' & Hwr' & Hrt' & Hnow' & Hrx').
  all: destruct (pollLoop _ timeout [] s) as [response r]; simpl in *.
  all: rewrite Hw', Hwr', Hw, <- Hwr.
  all: repeat split; [lia | by etrans].
Qed.

Lemma span_nonneg (events : list ReadEvent) : 0 <= span events.
Proof. induction events; simpl; lia. Qed.

(** Clearing the input of a quiet line takes its first read and no more. *)
Lemma clearInput_quiet (p : Port) (quiet rest : list ReadEvent) :
  rx p = quiet ++ rest ->
  Forall (fun ev => ev_data ev = []) quiet ->
  rest = [] \/ quiet <> [] ->
  rx (clearInput p) = tail quiet ++ rest.
Proof.
  intros Hrx Hq Hreach. rewrite clearInput_unfold. unfold clearBody, port_Read.
  destruct quiet as [| ev quiet].
  - destruct Hreach as [-> |]; [| done]. rewrite Hrx. done.
  - rewrite Hrx. simpl. apply Forall_cons in Hq as [-> _]. done.
Qed.

(** While the reads bring nothing and span the window, the response loop
    gathers nothing and leaves what lies behind them. *)
Lemma pollLoop_quiet (timeout : Z) (p : Port) (quiet rest : list ReadEvent) :
  rx p = quiet ++ rest ->
  Forall (fun ev => ev_data ev = []) quiet ->
  rest = [] \/ timeout <= span quiet ->
  exists unread,
    (pollLoop (now p) timeout [] p).1 = []
    /\ rx (pollLoop (now p) timeout [] p).2 = unread ++ rest
    /\ unread `suffix_of` quiet.
Proof.
  intros Hrx Hq Hreach.
  unfold pollLoop. destruct (pollLoop_runs (now p) timeout [] p) as [r Hr].
  rewrite Hr. simpl. revert Hr.
  set (Q := fun st : gostring * Port =>
              st.1 = [] /\ exists q, rx st.2 = q ++ rest /\ q `suffix_of` quiet).
  set (I := fun st : gostring * Port =>
              st.1 = []
              /\ exists q, rx st.2 = q ++ rest /\ q `suffix_of` quiet
                  /\ Forall (fun ev => ev_data ev = []) q
                  /\ (rest = [] \/ timeout <= now st.2 - now p + span q)).
  assert (forall st, I st ->
            match pollBody (now p) timeout st with
            | Again st' => I st'
            | Leave st' => Q st'
            end) as Hstep.
  { intros [resp s] (Hresp & q & Hs & Hsuf & Hzero & Hwin).
    simpl in Hresp, Hs, Hwin. subst resp.
    unfold pollBody. case_bool_decide as Hin; cbn [negb].
    2: { split; [done |]. exists q. done. }
    unfold port_Read. destruct q as [| ev q].
    - destruct Hwin as [-> | Hwin]; [| simpl in Hwin; lia].
      rewrite Hs. simpl.
      split; [done |]. exists []. simpl.
      repeat split; [done .. | by left].
    - rewrite Hs. simpl. apply Forall_cons in Hzero as [-> Hzero]. rewrite take_nil. simpl.
      assert (q `suffix_of` quiet) as Hsuf' by (by eapply suffix_cons_l).
      destruct (ev_err ev); simpl.
      + split; [done |]. exists q. done.
      + split; [done |]. exists q. simpl.
        repeat split; [done .. |]. destruct Hwin as [? | Hwin]; [by left | right].
        simpl in Hwin. unfold time_Millisecond. lia. }
  intros Hr.
  assert (Q r) as (Hresp & q & Hs & Hsuf).
  { revert Hr. apply (iterate_keeps _ I Q).
    - intros st st' Hst Hb. specialize (Hstep st Hst). by rewrite Hb in Hstep.
    - intros st st' Hst Hb. specialize (Hstep st Hst). by rewrite Hb in Hstep.
    - split; [done |]. exists quiet. simpl. repeat split; [done .. |].
      destruct Hreach; [by left | right; lia]. }
  by exists q.
Qed.

(** What a call leaves of a line that is quiet for the whole window. *)
Lemma executeWaitResult_quiet (command : gostring) (timeout : Z) (m : MSR)
    (rest : list ReadEvent) :
  quiet_window timeout (port m) rest -> write_succeeds (port m) ->
  (executeWaitResult command timeout m).1 = Err timed_out
  /\ exists unread,
      rx (port (executeWaitResult command timeout m).2) = unread ++ rest
      /\ Forall (fun ev => ev_data ev = []) unread.
Proof.
  intros (quiet & Hrx & Hq & Hreach) Hok. unfold executeWaitResult.
  assert (rx (clearInput (port m)) = tail quiet ++ rest) as Hc.
  { apply clearInput_quiet; [done | done |]. destruct Hreach as [| []]; eauto. }
  destruct (clearInput_later (port m)) as (_ & Hwr & _).
  set (c := clearInput (port m)) in *.
  unfold port_Write.
  set (w := Build_Port (rx c) (tail (wr c)) (written c ++ [EscapeCode ++ command])
              (read_timeout c) (now c)).
  destruct (wr c) as [| [code |] rest'] eqn:Hcw.
  2: { exfalso. eapply Hok. by rewrite <- Hwr. }
  all: set (s := port_SetReadTimeout timeout (time_Sleep (100 * time_Millisecond) w)).
  all: destruct (pollLoop_quiet timeout s (tail quiet) rest) as (unread & Hresp & Hun & Hsuf);
         [done | by apply Forall_tail | destruct Hreach as [| []]; eauto |].
  all: change (now (time_Sleep (100 * time_Millisecond) w)) with (now s).
  all: destruct (pollLoop (now s) timeout [] s) as [response r]; simpl in *.
  all: subst response; split; [done |]; exists unread; split; [done |].
  all: destruct Hsuf as [k Hk]; pose proof (Forall_tail _ _ Hq) as Ht.
  all: rewrite Hk in Ht; by apply Forall_app in Ht as [_ ?].
Qed.

(** [strings.LastIndex] finds the occurrence that no other follows. *)
Lemma strings_LastIndex_at (s : gostring) (b : byte) (pos : nat) :
  s !! pos = Some b ->
  (forall j, (pos < j)%nat -> s !! j <> Some b) ->
  strings_LastIndex s [b] = Z.of_nat pos.
Proof.
  intros Hpos Hlast.
  destruct (strings_LastIndex_byte s b) as [[Habs _] | (before & after & -> & Hafter & ->)].
  - exfalso. apply Habs. by eapply list_elem_of_lookup_2.
  - unfold len. f_equal.
    destruct (Nat.lt_trichotomy (length before) pos) as [Hlt | [Heq | Hgt]]; [| done |].
    + exfalso. apply Hafter.
      rewrite lookup_app_r in Hpos by lia.
      destruct (pos - length before)%nat as [| k] eqn:Hk; [lia |].
      simpl in Hpos. by eapply list_elem_of_lookup_2.
    + exfalso. apply (Hlast (length before) Hgt). by rewrite list_lookup_middle.
Qed.

Lemma strings_LastIndex_absent (s : gostring) (b : byte) :
  b ∉ s -> strings_LastIndex s [b] = -1.
Proof.
  intros Habs.
  destruct (strings_LastIndex_byte s b) as [[_ ?] | (before & after & -> & _)]; [done |].
  exfalso. apply Habs. set_solver.
Qed.

(** C3: the response is split at its last escape byte. With that byte at
    [pos] and not the final one, the status is [buffer[pos+1]], the result
    [buffer[pos+2:]] and the data [buffer[:pos]]; without an escape byte the
    format is invalid; with the escape byte as the final byte the response is
    incomplete. *)
Theorem parse_splits_at_last_escape (buffer : gostring) :
  (forall pos : nat,
      buffer !! pos = Some x1b ->
      (forall j, (pos < j)%nat -> buffer !! j <> Some x1b) ->
      (S pos < length buffer)%nat ->
      exists status,
        buffer !! S pos = Some status
        /\ parseResponse buffer
           = Ok (status, drop (pos + 2) buffer, take pos buffer))
  /\ (x1b ∉ buffer -> parseResponse buffer = Err invalid_format)
  /\ (forall pos : nat,
        buffer !! pos = Some x1b -> S pos = length buffer ->
        parseResponse buffer = Err incomplete).
Proof.
  split; [| split].
  - intros pos Hpos Hlast Hlen. unfold parseResponse, EscapeCode.
    rewrite (strings_LastIndex_at buffer x1b pos) by done.
    rewrite bool_decide_false by lia.
    rewrite bool_decide_false by (unfold len; lia).
    destruct (at_index_ok buffer (Z.of_nat pos + 1)) as (status & -> & Hst);
      [unfold len; lia |].
    replace (Z.to_nat (Z.of_nat pos + 1)) with (S pos) in Hst by lia.
    exists status. split; [done |]. cbn [bind].
    assert ((if bool_decide (Z.of_nat pos + 2 < len buffer)
             then slice buffer (Z.of_nat pos + 2) (len buffer) else Ok [])
            = Ok (drop (pos + 2) buffer)) as ->.
    { case_bool_decide as Hlt.
      - rewrite slice_ok by (unfold len in *; lia). f_equal.
        replace (Z.to_nat (Z.of_nat pos + 2)) with (pos + 2)%nat by lia.
        apply take_ge. rewrite length_drop. unfold len. lia.
      - f_equal. symmetry. apply drop_ge. unfold len in *. lia. }
    cbn [bind].
    assert ((if bool_decide (Z.of_nat pos > 0) then slice buffer 0 (Z.of_nat pos) else Ok [])
            = Ok (take pos buffer)) as ->.
    { case_bool_decide as Hgt.
      - rewrite slice_ok by (unfold len in *; lia). f_equal.
        rewrite Z.sub_0_r, Nat2Z.id. done.
      - by replace pos with 0%nat by lia. }
    done.
  - intros Habs. unfold parseResponse, EscapeCode.
    rewrite strings_LastIndex_absent by done. done.
  - intros pos Hpos Hlen. unfold parseResponse, EscapeCode.
    rewrite (strings_LastIndex_at buffer x1b pos); [| done |].
    + rewrite bool_decide_false by lia.
      rewrite bool_decide_true by (unfold len; lia). done.
    + intros j Hj Hsome. apply lookup_lt_Some in Hsome. lia.
Qed.

(** ** The operations *)

Lemma refused_spec (status : byte) : refused status = true <-> status <> x30.
Proof. unfold refused. case_bool_decide; naive_solver. Qed.

(** The errors of [decodeISODataBlock] are its own six. *)
Lemma decode_error_format (data : gostring) (format : string) (args : list fmt_arg) :
  decodeISODataBlock data = Err (fmt_Errorf format args) ->
  In format [bad_header; bad_end; no_escape_1; no_marker_2; no_escape_2; no_marker_3].
Proof.
  unfold decodeISODataBlock.
  repeat (crack; try done).
  all: cbn [bind orelse andalso negb]; try done.
  all: intros [= <- <-]; simpl; tauto.
Qed.

Lemma erase_mask (t1 t2 t3 : bool) :
  (let mask := 0 in
   let mask := if t1 then Z.lor mask 1 else mask in
   let mask := if t2 then Z.lor mask 2 else mask in
   if t3 then Z.lor mask 4 else mask)
  = (if t1 then 1 else 0) + (if t2 then 2 else 0) + (if t3 then 4 else 0).
Proof. by destruct t1, t2, t3. Qed.

(** Every operation is one engine call on its command, a status error when
    the status is not '0', and otherwise what it makes of the response. *)
Lemma perform_eq (op : operation) (m : MSR) :
  perform op m
  = let '(r, m') := executeWaitResult (command_of op) (10 * time_Second) m in
    match r with
    | Ok (status, result, data) =>
        if refused status
        then (Err (fmt_Errorf (error_name op ++ " error: %c") [ArgByte status]), m')
        else (on_success op data, m')
    | Err e => (Err e, m')
    | Panic => (Panic, m')
    end.
Proof.
  destruct op;
    unfold perform, forget, ReadTracks, WriteTracks, EraseTracks, SetCoercivity,
      SetBPC, ReadRawTracks, WriteRawTracks, and_then, command_of, on_success;
    try rewrite erase_mask;
    destruct (executeWaitResult _ _ m) as [[[[status result] data] | e |] m'];
    try reflexivity;
    destruct (refused status); try reflexivity.
  unfold pure, ret. by destruct (decodeISODataBlock data) as [[[s1 s2] s3] | |].
Qed.

Lemma sendModes_cons (mode : gostring) (modes : list gostring) (m : MSR) :
  sendModes (mode :: modes) m
  = let '(r, m') := executeWaitResult (bytes "b" ++ mode) (10 * time_Second) m in
    match r with
    | Ok (status, result, data) =>
        if refused status
        then (Err (fmt_Errorf "set_bpi error: %c for %x" [ArgByte status; ArgString mode]), m')
        else sendModes modes m'
    | Err e => (Err e, m')
    | Panic => (Panic, m')
    end.
Proof.
  cbn [sendModes]. unfold and_then.
  destruct (executeWaitResult _ _ m) as [[[[status result] data] | e |] m']; try reflexivity.
  by destruct (refused status).
Qed.

Lemma sendModes_app (sent rest : list gostring) (m m1 : MSR) :
  sendModes sent m = (Ok tt, m1) ->
  sendModes (sent ++ rest) m = sendModes rest m1.
Proof.
  revert m. induction sent as [| mode sent IH]; intros m.
  - by intros [= ->].
  - rewrite <- app_comm_cons, !sendModes_cons.
    destruct (executeWaitResult _ _ m) as [[[[status result] data] | e |] m']; try done.
    destruct (refused status); [done | apply IH].
Qed.

(** The commands [sendModes] writes: one for each mode, in order, up to the
    one that fails. *)
Lemma sendModes_written (modes : list gostring) (m : MSR) :
  exists n : nat,
    (n <= length modes)%nat
    /\ written (port (sendModes modes m).2)
       = written (port m)
         ++ map (fun mode => EscapeCode ++ bytes "b" ++ mode) (take n modes)
    /\ ((sendModes modes m).1 = Ok tt -> n = length modes).
Proof.
  revert m. induction modes as [| mode modes IH]; intros m.
  - exists 0%nat. simpl. by rewrite app_nil_r.
  - rewrite sendModes_cons.
    pose proof (executeWaitResult_port (bytes "b" ++ mode) (10 * time_Second) m) as (Hw & _).
    destruct (executeWaitResult _ _ m) as [r m']. simpl in Hw.
    assert (written (port m') = written (port m)
            ++ map (fun mode => EscapeCode ++ bytes "b" ++ mode) (take 1 (mode :: modes))) as Hone
      by done.
    destruct r as [[[status result] data] | e |];
      [destruct (refused status) |..];
      try (exists 1%nat; simpl; split; [lia | split; [done | done]]).
    destruct (IH m') as (n & Hn & Hwn & Hall). exists (S n).
    split; [simpl; lia |]. split.
    + rewrite Hwn, Hw. by rewrite <- app_assoc.
    + intros Hok. simpl. f_equal. by apply Hall.
Qed.

(** ** The engine and the operations at work *)

(** Every operation times out on such a line. *)
Lemma perform_times_out (op : operation) (m : MSR) (rest : list ReadEvent) :
  quiet_window (10 * time_Second) (port m) rest -> write_succeeds (port m) ->
  (perform op m).1 = Err timed_out.
Proof.
  intros Hquiet Hok. rewrite perform_eq.
  destruct (executeWaitResult_quiet (command_of op) (10 * time_Second) m rest Hquiet Hok)
    as [Hres _].
  destruct (executeWaitResult _ _ m) as [r m']. simpl in Hres. by subst r.
Qed.

(** C8: when the line brings no byte for the whole window, a call whose
    command goes out fails with the timeout error. The handle keeps its
    port: the reads behind the window are untouched, the command is one more
    write, the read timeout is back at 100 ms, the clock has moved on; and a
    next call on the handle gives what it gives on any handle on the same
    line. *)
Theorem quiet_window_times_out (command : gostring) (timeout : Z) (m : MSR)
    (rest : list ReadEvent) :
  quiet_window timeout (port m) rest -> write_succeeds (port m) ->
  exists m' unread,
    executeWaitResult command timeout m = (Err timed_out, m')
    /\ rx (port m') = unread ++ rest
    /\ Forall (fun ev => ev_data ev = []) unread
    /\ wr (port m') = tail (wr (port m))
    /\ written (port m') = written (port m) ++ [EscapeCode ++ command]
    /\ read_timeout (port m') = 100
    /\ now (port m) <= now (port m')
    /\ forall command' timeout' other,
        same_line (port other) (port m') ->
        (executeWaitResult command' timeout' m').1
        = (executeWaitResult command' timeout' other).1.
Proof.
  intros Hquiet Hok.
  destruct (executeWaitResult_quiet command timeout m rest Hquiet Hok)
    as (Hres & unread & Hrx & Hzero).
  destruct (executeWaitResult_port command timeout m) as (Hw & Hwr & Hnow & _ & Hrt).
  destruct (executeWaitResult command timeout m) as [r m'] eqn:Hcall. simpl in *.
  subst r. exists m', unread. repeat split; try done; [by apply Hrt |].
  intros command' timeout' other Hline. symmetry.
  by apply executeWaitResult_same_line.
Qed.

(** C8 at a line that is quiet for three reads, spanning a window of 15 ms,
    before a reply comes. *)
Lemma quiet_window_times_out_witness :
  let quiet := {| ev_data := []; ev_err := false; ev_wait := 0 |} in
  let reply := {| ev_data := [x1b; x30]; ev_err := false; ev_wait := 5 |} in
  let m := {| port := {| rx := [quiet; quiet; quiet; reply]; wr := [];
                         written := []; read_timeout := 0; now := 0 |} |} in
  exists m' unread,
    executeWaitResult (bytes "r") 15 m = (Err timed_out, m')
    /\ rx (port m') = unread ++ [reply]
    /\ Forall (fun ev => ev_data ev = []) unread
    /\ wr (port m') = tail (wr (port m))
    /\ written (port m') = written (port m) ++ [EscapeCode ++ bytes "r"]
    /\ read_timeout (port m') = 100
    /\ now (port m) <= now (port m')
    /\ forall command' timeout' other,
        same_line (port other) (port m') ->
        (executeWaitResult command' timeout' m').1
        = (executeWaitResult command' timeout' other).1.
Proof.
  intros quiet reply m.
  apply (quiet_window_times_out (bytes "r") 15 m [reply]).
  - exists [quiet; quiet; quiet]. split; [reflexivity |].
    split; [repeat constructor |]. right. split; [discriminate | simpl; lia].
  - intros code. discriminate.
Defined.

(** C4: an operation that awaits a response fails, on a status other than
    '0', with the error that opens with its name and carries the status, and
    on '0' with no such error. [SetBPI] does so for each command it sends: a
    status other than '0' ends it with the error of that status and mode, and
    '0' sends it on to the modes that remain. *)
Theorem status_byte_surfaced :
  (forall (op : operation) (m m' : MSR) (status : byte) (result data : gostring),
      executeWaitResult (command_of op) (10 * time_Second) m
      = (Ok (status, result, data), m') ->
      (status <> x30 ->
       perform op m
       = (Err (fmt_Errorf (error_name op ++ " error: %c") [ArgByte status]), m'))
      /\ (status = x30 ->
          forall b, (perform op m).1
                    <> Err (fmt_Errorf (error_name op ++ " error: %c") [ArgByte b])))
  /\ (forall (bpi1 bpi2 bpi3 : option bool) (accepted rest : list gostring)
        (mode : gostring) (m m1 m2 : MSR) (status : byte) (result data : gostring),
        bpiModes bpi1 bpi2 bpi3 = accepted ++ mode :: rest ->
        sendModes accepted m = (Ok tt, m1) ->
        executeWaitResult (bytes "b" ++ mode) (10 * time_Second) m1
        = (Ok (status, result, data), m2) ->
        (status <> x30 ->
         SetBPI bpi1 bpi2 bpi3 m
         = (Err (fmt_Errorf "set_bpi error: %c for %x" [ArgByte status; ArgString mode]),
            m2))
        /\ (status = x30 -> SetBPI bpi1 bpi2 bpi3 m = sendModes rest m2)).
Proof.
  split.
  - intros op m m' status result data Hcall. rewrite perform_eq, Hcall. split.
    + intros Hst. apply refused_spec in Hst. by rewrite Hst.
    + intros -> b. change (refused x30) with false. cbn [fst].
      destruct op; try done. unfold on_success.
      destruct (decodeISODataBlock data) as [strips | e |] eqn:Hdec; try done.
      cbn [bind error_name]. intros [= ->].
      apply decode_error_format in Hdec. simpl in Hdec.
      unfold bad_header, bad_end, no_escape_1, no_marker_2, no_escape_2, no_marker_3 in Hdec.
      intuition discriminate.
  - intros bpi1 bpi2 bpi3 accepted rest mode m m1 m2 status result data Hmodes Hacc Hcall.
    unfold SetBPI. rewrite Hmodes, (sendModes_app _ _ _ _ Hacc), sendModes_cons, Hcall.
    split.
    + intros Hst. apply refused_spec in Hst. by rewrite Hst.
    + intros ->. done.
Qed.

(** C6: [EraseTracks] writes the escape byte, 'c' and one byte, the sum of 1
    for track 1, 2 for track 2 and 4 for track 3, so that bit 0, bit 1 and
    bit 2 of it say which tracks to erase; for tracks 1 and 3 it is 0x05. *)
Theorem erase_sends_bitmask (t1 t2 t3 : bool) (m : MSR) :
  let mask := (if t1 then 1 else 0) + (if t2 then 2 else 0) + (if t3 then 4 else 0) in
  (exists b : byte,
      written (port (EraseTracks t1 t2 t3 m).2) = written (port m) ++ [[x1b; x63; b]]
      /\ Z.of_N (Byte.to_N b) = mask
      /\ Z.testbit mask 0 = t1 /\ Z.testbit mask 1 = t2 /\ Z.testbit mask 2 = t3)
  /\ written (port (EraseTracks true false true m).2)
     = written (port m) ++ [[x1b; x63; x05]].
Proof.
  intros mask.
  assert (forall a b c,
             written (port (EraseTracks a b c m).2)
             = written (port m) ++ [EscapeCode ++ command_of (erase_tracks a b c)]) as Hsent.
  { intros a b c. change (EraseTracks a b c m) with (perform (erase_tracks a b c) m).
    rewrite perform_eq.
    destruct (executeWaitResult_port (command_of (erase_tracks a b c)) (10 * time_Second) m)
      as (Hw & _).
    destruct (executeWaitResult _ _ m) as [[[[status result] data] | e |] m'];
      [destruct (refused status) |..]; exact Hw. }
  split; [| by rewrite Hsent].
  exists (byte_of_int mask). rewrite Hsent.
  subst mask. by destruct t1, t2, t3.
Qed.

(** C7, amended: [SetBPI] collects one mode for each track that is set, in
    the order of the tracks, each a single byte of a table of six that are
    all different (high and low for track 1, for track 2, for track 3); it
    writes a 'b' command for each mode in turn, up to the first that fails,
    and for all of them when it succeeds. *)
Theorem set_bpi_commands (bpi1 bpi2 bpi3 : option bool) (m : MSR) :
  let modes := bpiModes bpi1 bpi2 bpi3 in
  modes = omap id [(fun high : bool => [if high then xa1 else xa0]) <$> bpi1;
                   (fun high : bool => [if high then xd2 else x4b]) <$> bpi2;
                   (fun high : bool => [if high then xc1 else xc0]) <$> bpi3]
  /\ length modes = slots_set bpi1 bpi2 bpi3
  /\ Forall (fun mode => exists code, mode = [code] /\ code ∈ bpiTable) modes
  /\ NoDup bpiTable /\ length bpiTable = 6%nat
  /\ exists n : nat,
      (n <= length modes)%nat
      /\ written (port (SetBPI bpi1 bpi2 bpi3 m).2)
         = written (port m) ++ map (fun mode => [x1b; x62] ++ mode) (take n modes)
      /\ ((SetBPI bpi1 bpi2 bpi3 m).1 = Ok tt -> n = length modes).
Proof.
  intros modes.
  split; [by destruct bpi1 as [[] |], bpi2 as [[] |], bpi3 as [[] |] |].
  split; [by destruct bpi1 as [[] |], bpi2 as [[] |], bpi3 as [[] |] |].
  split.
  { subst modes. unfold bpiTable.
    destruct bpi1 as [[] |], bpi2 as [[] |], bpi3 as [[] |]; simpl;
      repeat constructor; eexists; (split; [reflexivity | decided]). }
  split; [decided |]. split; [done |].
  apply (sendModes_written modes m).
Qed.

(** C7 as stated fails: no table of four bytes holds every mode, and a
    command that is refused ends [SetBPI] before the second track set. *)
Lemma bpi_table_is_not_four :
  ~ (exists table : list byte,
        length table = 4%nat
        /\ forall bpi1 bpi2 bpi3 mode,
            mode ∈ bpiModes bpi1 bpi2 bpi3 -> exists code, mode = [code] /\ code ∈ table)
  /\ (let refusal := {| ev_data := [x1b; x31]; ev_err := false; ev_wait := 0 |} in
      let m := {| port := {| rx := [refusal]; wr := []; written := [];
                             read_timeout := 0; now := 0 |} |} in
      written (port (SetBPI (Some true) (Some true) None m).2) = [[x1b; x62; xa1]]).
Proof.
  split; [| vm_compute; reflexivity].
  intros (table & Hlen & Hall).
  assert (forall code, code ∈ bpiTable -> code ∈ table) as Hin.
  { assert (forall code bpi1 bpi2 bpi3, [code] ∈ bpiModes bpi1 bpi2 bpi3 -> code ∈ table) as Hone.
    { intros code bpi1 bpi2 bpi3 (c & [= ->] & Hc)%Hall. done. }
    intros code Hcode. unfold bpiTable in Hcode.
    repeat (apply elem_of_cons in Hcode as [-> | Hcode]);
      [ apply (Hone _ (Some true) None None)
      | apply (Hone _ (Some false) None None)
      | apply (Hone _ None (Some true) None)
      | apply (Hone _ None (Some false) None)
      | apply (Hone _ None None (Some true))
      | apply (Hone _ None None (Some false))
      | by apply elem_of_nil in Hcode ]; simpl; apply list_elem_of_singleton; done. }
  assert (NoDup bpiTable) as Hnd by decided.
  pose proof (submseteq_length _ _ (NoDup_submseteq _ _ Hnd Hin)) as Hle.
  rewrite Hlen in Hle. simpl in Hle. lia.
Qed.

(** C10: with no track to set, [SetBPI] returns success and leaves the port
    as it was; nothing is written. *)
Theorem set_bpi_nothing_to_set (m : MSR) :
  SetBPI None None None m = (Ok tt, m)
  /\ written (port (SetBPI None None None m).2) = written (port m).
Proof. split; reflexivity. Qed.

(** ** More on the codec *)

Lemma slice_whole (s : gostring) : slice s 0 (len s) = Ok s.
Proof.
  pose proof (len_nonneg s). rewrite slice_ok by lia. f_equal.
  rewrite Z.sub_0_r. unfold len. rewrite Nat2Z.id. simpl. apply firstn_all.
Qed.

(** Two slices that meet make one. *)
Lemma slice_join (s x y : gostring) (a b c : Z) :
  slice s a b = Ok x -> slice s b c = Ok y -> slice s a c = Ok (x ++ y).
Proof.
  intros [Hx ->]%slice_Ok_inv [Hy ->]%slice_Ok_inv.
  rewrite slice_ok by lia. f_equal.
  replace (Z.to_nat (c - a)) with (Z.to_nat (b - a) + Z.to_nat (c - b))%nat by lia.
  rewrite <- take_take_drop, drop_drop. do 3 f_equal. lia.
Qed.

(** A slice of a slice that runs to the end. *)
Lemma slice_of_rest (s rest x : gostring) (lo k : Z) :
  slice s lo (len s) = Ok rest -> slice s lo (k + lo) = Ok x ->
  x = take (Z.to_nat k) rest.
Proof.
  intros [Hr ->]%slice_Ok_inv [Hx ->]%slice_Ok_inv.
  rewrite take_take. f_equal.
  unfold len in *. lia.
Qed.

(** The first bytes of what [strings.Index] searched, up to what it found,
    hold no such byte. *)
Lemma strings_Index_prefix (s : gostring) (b : byte) :
  strings_Index s [b] <> -1 ->
  exists after,
    s = take (Z.to_nat (strings_Index s [b])) s ++ b :: after
    /\ (b ∉ take (Z.to_nat (strings_Index s [b])) s)
    /\ 0 <= strings_Index s [b] < len s.
Proof.
  intros Hfound.
  destruct (strings_Index_byte s b) as [[_ ?] | (before & after & Hs & Hfree & Hidx)];
    [done |].
  exists after. rewrite Hidx. unfold len at 1 2. rewrite Nat2Z.id.
  rewrite Hs at 2 3. rewrite take_app_length. rewrite <- Hs.
  split; [done |]. split; [done |].
  rewrite Hs, len_app, len_cons.
  pose proof (len_nonneg before). pose proof (len_nonneg after). lia.
Qed.

(** What a field scan of [decodeISODataBlock] read, when it read something:
    the bytes it stepped over are a field of the value it gives. *)
Lemma scan_inv (data rest value : gostring) (lo e : Z) :
  0 <= lo ->
  slice data lo (len data) = Ok rest ->
  strings_Index rest EscapeCode <> -1 ->
  (if bool_decide (strings_Index rest EscapeCode + lo = lo)
   then Ok (strings_Index rest EscapeCode + lo + 2, [])
   else s <- slice data lo (strings_Index rest EscapeCode + lo) ;;
        Ok (strings_Index rest EscapeCode + lo, s))
  = Ok (e, value) ->
  e <= len data ->
  exists wire, slice data lo e = Ok wire /\ field wire value /\ lo < e.
Proof.
  intros Hlo Hrest Hfound Hscan He.
  destruct (strings_Index_prefix rest x1b Hfound) as (after & Hsplit & Hfree & Hrange).
  fold EscapeCode in Hsplit, Hfree, Hrange.
  pose proof (slice_len _ _ _ _ Hrest) as Hlen.
  case_bool_decide as Hzero.
  - injection Hscan as <- <-.
    assert (strings_Index rest EscapeCode = 0) as Hi by lia.
    rewrite Hi in *. simpl in Hsplit.
    assert (exists p, slice data lo (0 + lo + 2) = Ok [x1b; p]) as [p Hp].
    { destruct (slice data lo (0 + lo + 2)) as [w | |] eqn:Hw.
      - pose proof (slice_len _ _ _ _ Hw) as Hwl.
        replace (0 + lo + 2) with (2 + lo) in Hw by lia.
        pose proof (slice_of_rest _ _ _ _ _ Hrest Hw) as ->.
        rewrite Hsplit. simpl. rewrite Hsplit in Hwl. simpl in Hwl.
        destruct after as [| p after]; [unfold len in Hwl; simpl in Hwl; lia |].
        by exists p.
      - by apply slice_no_Err in Hw.
      - apply slice_Panic_inv in Hw. lia. }
    exists [x1b; p]. split; [done |]. split; [constructor | lia].
  - destruct (slice data lo (strings_Index rest EscapeCode + lo)) as [w | |] eqn:Hw;
      [| done | done].
    cbn [bind] in Hscan. injection Hscan as <- <-.
    exists w. split; [done |].
    pose proof (slice_of_rest _ _ _ _ _ Hrest Hw) as ->.
    split; [| lia]. constructor; [| done].
    intros Hnil. apply (f_equal length) in Hnil.
    rewrite length_take in Hnil. unfold len in *. simpl in Hnil. lia.
Qed.

(** What [decodeISODataBlock] accepted: the header, two fields in front of
    their markers, the marker of track 3, the rest up to the terminator. *)
Lemma decode_Ok_inv (data s1 s2 s3 : gostring) :
  decodeISODataBlock data = Ok (s1, s2, s3) ->
  exists w1 w2 f3,
    data = [x1b; x73; x1b; x01] ++ w1 ++ [x1b; x02] ++ w2 ++ [x1b; x03]
             ++ f3 ++ [x3f; x1c]
    /\ field w1 s1 /\ field w2 s2
    /\ s3 = (if bool_decide (head f3 = Some x1b) then [] else f3).
Proof.
  unfold decodeISODataBlock. pose proof (len_nonneg data) as Hnn.
  destruct (bool_decide_reflect (len data < 4)) as [| Hl4]; [done |]. cbn [orelse bind].
  destruct (slice data 0 4) as [h | |] eqn:Hh; [| done | done]. cbn [bind].
  destruct (bool_decide_reflect (h = EscapeCode ++ [x73] ++ EscapeCode ++ [x01])) as [-> |];
    [| done]. cbn [negb].
  destruct (bool_decide_reflect (len data < 2)) as [| _]; [lia |]. cbn [orelse bind].
  destruct (slice data (len data - 2) (len data)) as [t | |] eqn:Ht; [| done | done].
  cbn [bind].
  destruct (bool_decide_reflect (t = [x3f] ++ EndCode)) as [-> |]; [| done]. cbn [negb].
  destruct (slice data 4 (len data)) as [rest1 | |] eqn:Hr1; [| done | done]. cbn [bind].
  destruct (bool_decide_reflect (strings_Index rest1 EscapeCode = -1)) as [| Hi1]; [done |].
  destruct (if bool_decide (strings_Index rest1 EscapeCode + 4 = 4) then _ else _)
    as [[e1 v1] | |] eqn:Hf1; [| done | done]. cbn [bind].
  destruct (bool_decide_reflect (e1 + 2 >= len data)) as [| He1]; [done |]. cbn [orelse bind].
  destruct (slice data e1 (e1 + 2)) as [m2 | |] eqn:Hm2; [| done | done]. cbn [bind].
  destruct (bool_decide_reflect (m2 = EscapeCode ++ [x02])) as [-> |]; [| done]. cbn [negb].
  destruct (slice data (e1 + 2) (len data)) as [rest2 | |] eqn:Hr2; [| done | done].
  cbn [bind].
  destruct (bool_decide_reflect (strings_Index rest2 EscapeCode = -1)) as [| Hi2]; [done |].
  destruct (if bool_decide (strings_Index rest2 EscapeCode + (e1 + 2) = e1 + 2) then _ else _)
    as [[e2 v2] | |] eqn:Hf2; [| done | done]. cbn [bind].
  destruct (bool_decide_reflect (e2 + 2 >= len data)) as [| He2]; [done |]. cbn [orelse bind].
  destruct (slice data e2 (e2 + 2)) as [m3 | |] eqn:Hm3; [| done | done]. cbn [bind].
  destruct (bool_decide_reflect (m3 = EscapeCode ++ [x03])) as [-> |]; [| done]. cbn [negb].
  destruct (bool_decide_reflect (e2 + 2 < len data)) as [_ |]; [| lia]. cbn [andalso].
  pose proof (marker_3_before_end data e2 Ht Hm3 ltac:(lia)) as Hend.
  destruct (scan_inv data rest1 v1 4 e1 ltac:(lia) Hr1 Hi1 Hf1 ltac:(lia))
    as (w1 & Hw1 & Hfield1 & Hlt1).
  destruct (scan_inv data rest2 v2 (e1 + 2) e2 ltac:(lia) Hr2 Hi2 Hf2 ltac:(lia))
    as (w2 & Hw2 & Hfield2 & Hlt2).
  destruct (slice data (e2 + 2) (len data - 2)) as [f3 | |] eqn:Hf3;
    [| by apply slice_no_Err in Hf3 | apply slice_Panic_inv in Hf3; lia].
  destruct (at_index data (e2 + 2)) as [c | |] eqn:Hc; [| done | done]. cbn [bind].
  change (at_index EscapeCode 0) with (@Ok byte x1b). cbn [bind].
  intros Hres.
  assert (data = [x1b; x73; x1b; x01] ++ w1 ++ [x1b; x02] ++ w2 ++ [x1b; x03]
                   ++ f3 ++ [x3f; x1c]) as Hdata.
  { pose proof (slice_join _ _ _ _ _ _ Hf3 Ht) as J.
    pose proof (slice_join _ _ _ _ _ _ Hm3 J) as J1.
    pose proof (slice_join _ _ _ _ _ _ Hw2 J1) as J2.
    pose proof (slice_join _ _ _ _ _ _ Hm2 J2) as J3.
    pose proof (slice_join _ _ _ _ _ _ Hw1 J3) as J4.
    pose proof (slice_join _ _ _ _ _ _ Hh J4) as J5.
    rewrite slice_whole in J5. injection J5 as J5. exact J5. }
  assert (head (f3 ++ [x3f; x1c]) = Some c) as Hhead.
  { apply at_index_Ok_inv in Hc as [_ Hc].
    pose proof (slice_len _ _ _ _ Hw1). pose proof (slice_len _ _ _ _ Hw2).
    set (P := [x1b; x73; x1b; x01] ++ w1 ++ [x1b; x02] ++ w2 ++ [x1b; x03]).
    assert (data = P ++ f3 ++ [x3f; x1c]) as HP by (rewrite Hdata; unfold P; parts).
    assert (Z.to_nat (e2 + 2) = (length P + 0)%nat) as Hat.
    { assert (len P = e2 + 2) by (unfold P; lens). unfold len in *. lia. }
    rewrite Hat, HP, lookup_app_r, Nat.add_comm, Nat.add_sub in Hc by lia.
    by rewrite <- head_lookup in Hc. }
  exists w1, w2, f3.
  destruct (bool_decide_reflect (c = x1b)) as [-> | Hne]; cbn [negb bind] in Hres;
    injection Hres as <- <- <-; (split; [done |]); (split; [done |]); (split; [done |]).
  - destruct f3 as [| b f3]; [done |]. simpl in Hhead. injection Hhead as ->.
    by rewrite bool_decide_true.
  - destruct f3 as [| b f3].
    + by rewrite bool_decide_false.
    + simpl in Hhead. injection Hhead as ->. rewrite bool_decide_false; [done |].
      simpl. congruence.
Qed.

(** A block whose third field opens with an escape byte: track 3 is read as
    empty. *)
Lemma decode_block_blank3 (w1 v1 w2 v2 t3 : gostring) :
  field w1 v1 -> field w2 v2 -> head t3 = Some x1b ->
  decodeISODataBlock
    ([x1b; x73; x1b; x01] ++ w1 ++ [x1b; x02] ++ w2 ++ [x1b; x03] ++ t3 ++ [x3f; x1c])
  = Ok (v1, v2, []).
Proof.
  intros H1 H2 H3.
  set (data := _ ++ _).
  pose proof (len_nonneg w1). pose proof (len_nonneg w2). pose proof (len_nonneg t3).
  assert (len data = 4 + len w1 + 2 + len w2 + 2 + len t3 + 2) as Hlen by (unfold data; lens).
  unfold decodeISODataBlock.
  rewrite bool_decide_false by lia. cbn [orelse bind].
  rewrite (slice_parts data [] [x1b; x73; x1b; x01] (w1 ++ [x1b; x02] ++ w2 ++ [x1b; x03] ++ t3 ++ [x3f; x1c]));
    [| done | done | done].
  cbn [bind]. rewrite bool_decide_true by done. cbn [negb].
  rewrite bool_decide_false by lia. cbn [orelse bind].
  rewrite (slice_parts data ([x1b; x73; x1b; x01] ++ w1 ++ [x1b; x02] ++ w2 ++ [x1b; x03] ++ t3) [x3f; x1c] []);
    [| unfold data; parts | lens | lens].
  cbn [bind]. rewrite bool_decide_true by done. cbn [negb].
  destruct (field_scan data [x1b; x73; x1b; x01] w1 v1 (w2 ++ [x1b; x03] ++ t3 ++ [x3f; x1c]) x02 4 H1)
    as (rest1 & Hs1 & Hi1 & Hf1); [done | done |].
  rewrite Hs1. cbn [bind]. rewrite bool_decide_false by done.
  rewrite Hf1. cbn [bind].
  rewrite bool_decide_false by lia. cbn [orelse bind].
  rewrite (slice_parts data ([x1b; x73; x1b; x01] ++ w1) [x1b; x02] (w2 ++ [x1b; x03] ++ t3 ++ [x3f; x1c]));
    [| unfold data; parts | lens | lens].
  cbn [bind]. rewrite bool_decide_true by done. cbn [negb].
  destruct (field_scan data ([x1b; x73; x1b; x01] ++ w1 ++ [x1b; x02]) w2 v2 (t3 ++ [x3f; x1c]) x03 (4 + len w1 + 2) H2)
    as (rest2 & Hs2 & Hi2 & Hf2); [unfold data; parts | lens |].
  rewrite Hs2. cbn [bind]. rewrite bool_decide_false by done.
  rewrite Hf2. cbn [bind].
  rewrite bool_decide_false by lia. cbn [orelse bind].
  rewrite (slice_parts data ([x1b; x73; x1b; x01] ++ w1 ++ [x1b; x02] ++ w2) [x1b; x03] (t3 ++ [x3f; x1c]));
    [| unfold data; parts | lens | lens].
  cbn [bind]. rewrite bool_decide_true by done. cbn [negb].
  rewrite bool_decide_true by lia. cbn [andalso].
  destruct t3 as [| c t3]; [done |]. injection H3 as ->.
  rewrite (at_index_parts data ([x1b; x73; x1b; x01] ++ w1 ++ [x1b; x02] ++ w2 ++ [x1b; x03])
             (t3 ++ [x3f; x1c]) x1b);
    [| unfold data; parts | lens].
  done.
Qed.

(** X1: [decodeISODataBlock] accepts exactly the blocks made of the header, a
    field and the marker of track 2, a field and the marker of track 3, any
    bytes and the terminator, where a field is a text without escape byte or
    an escape byte and one more byte; it returns the texts (nothing for the
    two-byte fields), and the last bytes unless they open with an escape
    byte. *)
Theorem decode_accepts_exactly (data s1 s2 s3 : gostring) :
  decodeISODataBlock data = Ok (s1, s2, s3)
  <-> exists w1 w2 f3,
        data = [x1b; x73; x1b; x01] ++ w1 ++ [x1b; x02] ++ w2 ++ [x1b; x03]
                 ++ f3 ++ [x3f; x1c]
        /\ field w1 s1 /\ field w2 s2
        /\ s3 = (if bool_decide (head f3 = Some x1b) then [] else f3).
Proof.
  split; [apply decode_Ok_inv |].
  intros (w1 & w2 & f3 & -> & H1 & H2 & ->).
  case_bool_decide; [by apply decode_block_blank3 | by apply decode_block].
Qed.

(** X2: what [decodeISODataBlock] returns holds no escape byte in track 1
    and track 2 and none at the start of track 3, and is at least ten bytes
    shorter than the block. *)
Theorem decoded_tracks_are_clean (data s1 s2 s3 : gostring) :
  decodeISODataBlock data = Ok (s1, s2, s3) ->
  (x1b ∉ s1) /\ (x1b ∉ s2) /\ head s3 <> Some x1b
  /\ len s1 + len s2 + len s3 + 10 <= len data.
Proof.
  intros (w1 & w2 & f3 & -> & H1 & H2 & ->)%decode_Ok_inv.
  assert (forall w v, field w v -> (x1b ∉ v) /\ len v <= len w) as Hfield.
  { intros w v [s _ Hs | p]; [done |]. split; [apply not_elem_of_nil |].
    rewrite !len_cons, len_nil. lia. }
  destruct (Hfield _ _ H1), (Hfield _ _ H2).
  split; [done |]. split; [done |].
  pose proof (len_nonneg f3).
  split; [by case_bool_decide |].
  assert (len (if bool_decide (head f3 = Some x1b) then [] else f3) <= len f3)
    by (case_bool_decide; [rewrite len_nil |]; lia).
  rewrite !len_app, !len_cons, !len_nil. lia.
Qed.

(** X2 at the block of the tracks "A", "B" and "C". *)
Lemma decoded_tracks_are_clean_witness :
  (x1b ∉ bytes "A") /\ (x1b ∉ bytes "B") /\ head (bytes "C") <> Some x1b
  /\ len (bytes "A") + len (bytes "B") + len (bytes "C") + 10
     <= len (encodeISODataBlock (bytes "A") (bytes "B") (bytes "C")).
Proof.
  apply (decoded_tracks_are_clean
           (encodeISODataBlock (bytes "A") (bytes "B") (bytes "C"))).
  reflexivity.
Defined.

(** X3: a block with a good header fails with the terminator error exactly
    when its last two bytes are not '?' FS. *)
Theorem decode_missing_terminator (data : gostring) :
  4 <= len data -> take 4 data = [x1b; x73; x1b; x01] ->
  (drop (length data - 2) data <> [x3f; x1c] ->
   decodeISODataBlock data = Err (fmt_Errorf bad_end [ArgString data]))
  /\ (drop (length data - 2) data = [x3f; x1c] ->
      forall args, decodeISODataBlock data <> Err (fmt_Errorf bad_end args)).
Proof.
  intros Hlen Hhead.
  assert (slice data 0 4 = Ok (EscapeCode ++ [x73] ++ EscapeCode ++ [x01])) as Hh.
  { rewrite slice_ok by lia. f_equal. exact Hhead. }
  assert (slice data (len data - 2) (len data) = Ok (drop (length data - 2) data)) as Ht.
  { rewrite slice_ok by lia. f_equal.
    replace (Z.to_nat (len data - 2)) with (length data - 2)%nat by (unfold len; lia).
    apply take_ge. rewrite length_drop. unfold len in *. lia. }
  split.
  - intros Hbad. unfold decodeISODataBlock.
    rewrite bool_decide_false by lia. cbn [orelse bind]. rewrite Hh. cbn [bind].
    rewrite bool_decide_true by done. cbn [negb].
    rewrite bool_decide_false by lia. cbn [orelse bind]. rewrite Ht. cbn [bind].
    by rewrite bool_decide_false.
  - intros Hgood args. unfold decodeISODataBlock.
    rewrite bool_decide_false by lia. cbn [orelse bind]. rewrite Hh. cbn [bind].
    rewrite bool_decide_true by done. cbn [negb].
    rewrite bool_decide_false by lia. cbn [orelse bind]. rewrite Ht, Hgood. cbn [bind].
    rewrite bool_decide_true by done. cbn [negb].
    repeat (crack; try done).
Qed.

(** X3 at the block of the package's test that lacks the terminator. *)
Lemma decode_missing_terminator_witness :
  let data := [x1b; x73; x1b; x01] ++ bytes "test" ++ [x1b; x02] ++ bytes "test"
              ++ [x1b; x03] ++ bytes "test" in
  (drop (length data - 2) data <> [x3f; x1c] ->
   decodeISODataBlock data = Err (fmt_Errorf bad_end [ArgString data]))
  /\ (drop (length data - 2) data = [x3f; x1c] ->
      forall args, decodeISODataBlock data <> Err (fmt_Errorf bad_end args)).
Proof.
  intros data. apply (decode_missing_terminator data); [vm_compute; discriminate | reflexivity].
Defined.

(** The first occurrence of a byte cuts a string in one way only. *)
Lemma first_cut_unique (b : byte) (s s' r r' : gostring) :
  b ∉ s -> b ∉ s' -> s ++ b :: r = s' ++ b :: r' -> s = s' /\ r = r'.
Proof.
  revert s'. induction s as [| c s IH]; intros s' Hs Hs' Heq.
  - destruct s' as [| c' s']; simplify_eq/=; [done |].
    exfalso. apply Hs'. apply list_elem_of_here.
  - destruct s' as [| c' s']; simplify_eq/=.
    + exfalso. apply Hs. apply list_elem_of_here.
    + apply not_elem_of_cons in Hs as [_ Hs]. apply not_elem_of_cons in Hs' as [_ Hs'].
      by destruct (IH s' Hs Hs' H0) as [-> ->].
Qed.

(** X4: [encodeISODataBlock] keeps apart what differs: two triples of tracks
    with no escape byte in track 1 and track 2 that give the same block are
    the same. *)
Theorem encode_injective (t1 t2 t3 u1 u2 u3 : gostring) :
  x1b ∉ t1 -> x1b ∉ t2 -> x1b ∉ u1 -> x1b ∉ u2 ->
  encodeISODataBlock t1 t2 t3 = encodeISODataBlock u1 u2 u3 ->
  t1 = u1 /\ t2 = u2 /\ t3 = u3.
Proof.
  intros Ht1 Ht2 Hu1 Hu2. unfold encodeISODataBlock. intros Heq.
  apply app_inv_head in Heq.
  apply (first_cut_unique x1b) in Heq as [-> Heq]; [| done | done].
  injection Heq as Heq.
  apply (first_cut_unique x1b) in Heq as [-> Heq]; [| done | done].
  injection Heq as Heq. apply app_inv_tail in Heq. done.
Qed.

(** X4 at the tracks "A", none and "C". *)
Lemma encode_injective_witness :
  bytes "A" = [x41] /\ @nil byte = [] /\ bytes "C" = [x43].
Proof.
  apply (encode_injective (bytes "A") [] (bytes "C") [x41] [] [x43]);
    [decided | decided | decided | decided | reflexivity].
Defined.

(** ** More on the engine *)

Lemma strings_Contains_byte (s : gostring) (b : byte) :
  strings_Contains s [b] = true <-> b ∈ s.
Proof.
  unfold strings_Contains. rewrite bool_decide_eq_true.
  destruct (strings_Index_byte s b) as [[Habs ->] | (before & after & -> & _ & ->)].
  - split; [lia | done].
  - pose proof (len_nonneg before). split; [intros _ | lia].
    apply elem_of_app. right. apply list_elem_of_here.
Qed.

(** Clearing the input takes the reads that bring bytes and the first one
    that brings none. *)
Lemma clearInput_stale (p : Port) (stale : list ReadEvent) (q : ReadEvent)
    (rest : list ReadEvent) :
  rx p = stale ++ q :: rest ->
  Forall (fun ev => chunk ev <> []) stale -> chunk q = [] ->
  rx (clearInput p) = rest.
Proof.
  revert p. induction stale as [| ev stale IH]; intros p Hrx Hstale Hq.
  - rewrite clearInput_unfold. unfold clearBody, port_Read. rewrite Hrx. simpl.
    fold (chunk q). rewrite Hq. done.
  - apply Forall_cons in Hstale as [Hev Hstale].
    rewrite clearInput_unfold. unfold clearBody, port_Read. rewrite Hrx. simpl.
    fold (chunk ev). rewrite bool_decide_false by (intros ?%len_zero; done).
    by apply IH.
Qed.

(** The outcome of a call, and the line it leaves, depend on the line that
    the clearing of the input leaves. *)
Lemma executeWaitResult_cleared (command : gostring) (timeout : Z) (m1 m2 : MSR) :
  same_line (clearInput (port m1)) (clearInput (port m2)) ->
  (executeWaitResult command timeout m1).1 = (executeWaitResult command timeout m2).1
  /\ same_line (port (executeWaitResult command timeout m1).2)
               (port (executeWaitResult command timeout m2).2).
Proof.
  intros [Hrx Hwr]. unfold executeWaitResult.
  set (c1 := clearInput (port m1)) in *. set (c2 := clearInput (port m2)) in *.
  unfold port_Write. rewrite Hwr.
  set (w1 := Build_Port (rx c1) _ _ _ _). set (w2 := Build_Port (rx c2) _ _ _ _).
  destruct (wr c2) as [| [code |] rest] eqn:Hc.
  2: { split; [done |]. by split. }
  all: set (s1 := port_SetReadTimeout timeout (time_Sleep (100 * time_Millisecond) w1)).
  all: set (s2 := port_SetReadTimeout timeout (time_Sleep (100 * time_Millisecond) w2)).
  all: destruct (pollLoop_same_line (now (time_Sleep (100 * time_Millisecond) w1))
                   (now (time_Sleep (100 * time_Millisecond) w2)) timeout [] s1 s2)
         as [Hresp Hline]; [by split | done | simpl; lia |].
  all: destruct (pollLoop _ timeout [] s1) as [resp1 r1], (pollLoop _ timeout [] s2) as [resp2 r2].
  all: simpl in *; subst resp2; split; [done | apply Hline].
Qed.

(** X5: bytes that wait on the line when a call begins are not taken for its
    response: with reads that bring bytes, then one that brings none, the
    call gives what it gives on the line that starts at that last read. *)
Theorem stale_input_is_dropped (command : gostring) (timeout : Z) (m m0 : MSR)
    (stale : list ReadEvent) (q : ReadEvent) (rest : list ReadEvent) :
  rx (port m) = stale ++ q :: rest ->
  Forall (fun ev => chunk ev <> []) stale -> chunk q = [] ->
  rx (port m0) = q :: rest -> wr (port m0) = wr (port m) ->
  (executeWaitResult command timeout m).1 = (executeWaitResult command timeout m0).1
  /\ same_line (port (executeWaitResult command timeout m).2)
               (port (executeWaitResult command timeout m0).2).
Proof.
  intros Hrx Hstale Hq Hrx0 Hwr0.
  apply executeWaitResult_cleared. split.
  - rewrite (clearInput_stale _ stale q rest Hrx Hstale Hq).
    by rewrite (clearInput_stale _ [] q rest Hrx0 (Forall_nil_2 _) Hq).
  - destruct (clearInput_later (port m)) as (_ & -> & _).
    destruct (clearInput_later (port m0)) as (_ & -> & _). done.
Qed.

(** X5 on a line that holds two old responses. *)
Lemma stale_input_is_dropped_witness :
  let old := {| ev_data := bytes "old" ++ [x1b; x31]; ev_err := false; ev_wait := 0 |} in
  let quiet := {| ev_data := []; ev_err := false; ev_wait := 0 |} in
  let reply := {| ev_data := [x1b; x30]; ev_err := false; ev_wait := 5 |} in
  let m := {| port := {| rx := [old; old; quiet; reply]; wr := []; written := [];
                         read_timeout := 0; now := 0 |} |} in
  let m0 := {| port := {| rx := [quiet; reply]; wr := []; written := [];
                          read_timeout := 0; now := 0 |} |} in
  (executeWaitResult (bytes "r") 1000 m).1 = (executeWaitResult (bytes "r") 1000 m0).1
  /\ same_line (port (executeWaitResult (bytes "r") 1000 m).2)
               (port (executeWaitResult (bytes "r") 1000 m0).2).
Proof.
  intros old quiet reply m m0.
  apply (stale_input_is_dropped (bytes "r") 1000 m m0 [old; old] quiet [reply]);
    [reflexivity | repeat constructor; discriminate | reflexivity | reflexivity | reflexivity].
Defined.

Lemma waits_nonneg (events : list ReadEvent) : 0 <= waits events.
Proof. induction events; simpl; lia. Qed.

(** The response loop on reads that bring bytes: it gathers them up to the
    first read that brings an escape byte, and reads no further. *)
Lemma pollLoop_gathers (startTime timeout : Z) (response : gostring) (p : Port)
    (pre : list ReadEvent) (ev : ReadEvent) (rest : list ReadEvent) :
  rx p = pre ++ ev :: rest ->
  x1b ∉ response ->
  Forall (fun e => chunk e <> [] /\ (x1b ∉ chunk e)) pre ->
  x1b ∈ chunk ev ->
  now p - startTime + waits pre < timeout ->
  (pollLoop startTime timeout response p).1
  = response ++ concat (map chunk pre) ++ chunk ev
  /\ rx (pollLoop startTime timeout response p).2 = rest
  /\ now (pollLoop startTime timeout response p).2
     = now p + waits pre + Z.max 0 (ev_wait ev).
Proof.
  revert response p. induction pre as [| e pre IH]; intros response p Hrx Hfree Hpre Hev Hwin.
  - rewrite pollLoop_unfold. unfold pollBody. simpl in Hwin.
    rewrite bool_decide_true by lia. cbn [negb].
    unfold port_Read. rewrite Hrx. simpl. fold (chunk ev).
    assert (chunk ev <> []) as Hne by (intros Hnil; rewrite Hnil in Hev; by apply elem_of_nil in Hev).
    assert (len (chunk ev) > 0) as Hpos.
    { pose proof (len_nonneg (chunk ev)). destruct (decide (len (chunk ev) = 0)) as [?%len_zero |]; [done | lia]. }
    rewrite (bool_decide_false (len (chunk ev) = 0)) by lia. rewrite andb_false_r.
    rewrite (bool_decide_true (len (chunk ev) > 0)) by done. cbn [andb].
    rewrite bool_decide_true by (rewrite len_app; pose proof (len_nonneg response); lia).
    cbn [andb].
    assert (strings_Contains (response ++ chunk ev) EscapeCode = true) as ->.
    { apply strings_Contains_byte. apply elem_of_app. by right. }
    simpl. repeat split. lia.
  - apply Forall_cons in Hpre as [[Hne Hclean] Hpre]. simpl in Hwin.
    pose proof (waits_nonneg pre).
    rewrite pollLoop_unfold. unfold pollBody.
    rewrite bool_decide_true by lia. cbn [negb].
    unfold port_Read. rewrite Hrx. simpl. fold (chunk e).
    assert (len (chunk e) > 0) as Hpos.
    { pose proof (len_nonneg (chunk e)). destruct (decide (len (chunk e) = 0)) as [?%len_zero |]; [done | lia]. }
    rewrite (bool_decide_false (len (chunk e) = 0)) by lia. rewrite andb_false_r.
    rewrite (bool_decide_true (len (chunk e) > 0)) by done. cbn [andb].
    assert (strings_Contains (response ++ chunk e) EscapeCode = false) as ->.
    { apply not_true_is_false. intros Hc. apply (strings_Contains_byte _ x1b) in Hc.
      apply elem_of_app in Hc. tauto. }
    rewrite andb_false_r.
    set (p' := Build_Port pre _ _ _ _) || set (p' := Build_Port _ _ _ _ _).
    destruct (IH (response ++ chunk e) p') as (Hr & Hx & Hn);
      [done | rewrite elem_of_app; tauto | done | done | simpl; lia |].
    rewrite Hr, Hx, Hn. simpl. rewrite <- !app_assoc. repeat split. lia.
Qed.

(** The call on a line that is quiet at first and then brings bytes. *)
Lemma executeWaitResult_gathers (command : gostring) (timeout : Z) (m : MSR)
    (q : ReadEvent) (pre : list ReadEvent) (ev : ReadEvent) (rest : list ReadEvent) :
  rx (port m) = q :: pre ++ ev :: rest -> chunk q = [] ->
  Forall (fun e => chunk e <> [] /\ (x1b ∉ chunk e)) pre ->
  x1b ∈ chunk ev ->
  waits pre < timeout ->
  write_succeeds (port m) ->
  (executeWaitResult command timeout m).1
  = parseResponse (concat (map chunk pre) ++ chunk ev)
  /\ rx (port (executeWaitResult command timeout m).2) = rest.
Proof.
  intros Hrx Hq Hpre Hev Hwin Hok. unfold executeWaitResult.
  pose proof (clearInput_stale (port m) [] q (pre ++ ev :: rest) Hrx (Forall_nil_2 _) Hq) as Hc.
  destruct (clearInput_later (port m)) as (_ & Hwr & _).
  set (c := clearInput (port m)) in *.
  unfold port_Write.
  set (w := Build_Port (rx c) (tail (wr c)) (written c ++ [EscapeCode ++ command])
              (read_timeout c) (now c)).
  destruct (wr c) as [| [code |] rest'] eqn:Hcw.
  2: { exfalso. eapply Hok. by rewrite <- Hwr. }
  all: set (s := port_SetReadTimeout timeout (time_Sleep (100 * time_Millisecond) w)).
  all: destruct (pollLoop_gathers (now s) timeout [] s pre ev rest)
         as (Hresp & Hrest & _);
         [done | apply not_elem_of_nil | done | done | lia |].
  all: change (now (time_Sleep (100 * time_Millisecond) w)) with (now s).
  all: destruct (pollLoop (now s) timeout [] s) as [response r]; simpl in *.
  all: subst response; split; [| done].
  all: rewrite bool_decide_false; [done |].
  all: intros Hz%len_zero; apply app_eq_nil in Hz as [_ Hz]; rewrite Hz in Hev.
  all: by apply elem_of_nil in Hev.
Qed.

(** X6: a response that comes in several reads is gathered up to the first
    read that brings an escape byte, and parsed as it then stands; what the
    line brings after that read is not read. *)
Theorem response_ends_at_first_escape (command : gostring) (timeout : Z) (m : MSR)
    (q : ReadEvent) (pre : list ReadEvent) (ev : ReadEvent) (rest : list ReadEvent) :
  rx (port m) = q :: pre ++ ev :: rest -> chunk q = [] ->
  Forall (fun e => chunk e <> [] /\ (x1b ∉ chunk e)) pre ->
  x1b ∈ chunk ev ->
  waits pre < timeout ->
  write_succeeds (port m) ->
  (executeWaitResult command timeout m).1
  = parseResponse (concat (map chunk pre) ++ chunk ev)
  /\ rx (port (executeWaitResult command timeout m).2) = rest.
Proof. apply executeWaitResult_gathers. Qed.

(** X6 on a response in three reads, the escape byte in the second. *)
Lemma response_ends_at_first_escape_witness :
  let quiet := {| ev_data := []; ev_err := false; ev_wait := 0 |} in
  let part1 := {| ev_data := bytes "AB"; ev_err := false; ev_wait := 3 |} in
  let part2 := {| ev_data := bytes "C" ++ [x1b]; ev_err := false; ev_wait := 3 |} in
  let part3 := {| ev_data := [x30]; ev_err := false; ev_wait := 3 |} in
  let m := {| port := {| rx := [quiet; part1; part2; part3]; wr := []; written := [];
                         read_timeout := 0; now := 0 |} |} in
  (executeWaitResult (bytes "r") 1000 m).1
  = parseResponse (concat (map chunk [part1]) ++ chunk part2)
  /\ rx (port (executeWaitResult (bytes "r") 1000 m).2) = [part3].
Proof.
  intros quiet part1 part2 part3 m.
  apply (response_ends_at_first_escape (bytes "r") 1000 m quiet [part1] part2 [part3]).
  - reflexivity.
  - reflexivity.
  - repeat constructor; [discriminate | decided].
  - decided.
  - simpl. lia.
  - intros code. discriminate.
Defined.

(** [strings.LastIndex] finds the last occurrence. *)
Lemma strings_LastIndex_found (before after : gostring) (b : byte) :
  b ∉ after -> strings_LastIndex (before ++ b :: after) [b] = len before.
Proof.
  intros Hafter. apply strings_LastIndex_at.
  - by rewrite list_lookup_middle.
  - intros j Hj Hsome. apply Hafter.
    rewrite lookup_app_r in Hsome by lia.
    destruct (j - length before)%nat as [| k] eqn:Hk; [lia |].
    simpl in Hsome. by eapply list_elem_of_lookup_2.
Qed.

(** The parse of data, an escape byte, a status and a result. *)
Lemma parseResponse_parts (data result : gostring) (status : byte) :
  status <> x1b -> x1b ∉ result ->
  parseResponse (data ++ x1b :: status :: result) = Ok (status, result, data).
Proof.
  intros Hst Hres. unfold parseResponse, EscapeCode.
  rewrite strings_LastIndex_found by (rewrite not_elem_of_cons; done).
  pose proof (len_nonneg data). pose proof (len_nonneg result).
  assert (len (data ++ x1b :: status :: result) = len data + 2 + len result) as Hlen by lens.
  rewrite bool_decide_false by lia. rewrite bool_decide_false by lia.
  rewrite (at_index_parts _ (data ++ [x1b]) result status); [| parts | lens].
  cbn [bind].
  assert ((if bool_decide (len data + 2 < len (data ++ x1b :: status :: result))
           then slice (data ++ x1b :: status :: result) (len data + 2)
                  (len (data ++ x1b :: status :: result))
           else Ok []) = Ok result) as ->.
  { case_bool_decide.
    - apply (slice_parts _ (data ++ [x1b; status]) result []); [| lens | lens].
      rewrite app_nil_r. parts.
    - destruct result; [done |]. rewrite len_cons in *. pose proof (len_nonneg result). lia. }
  cbn [bind].
  assert ((if bool_decide (len data > 0)
           then slice (data ++ x1b :: status :: result) 0 (len data) else Ok [])
          = Ok data) as ->.
  { case_bool_decide.
    - by apply (slice_parts _ [] data (x1b :: status :: result)).
    - destruct data; [done |]. rewrite len_cons in *. pose proof (len_nonneg data). lia. }
  done.
Qed.

Lemma parseResponse_end (data : gostring) :
  parseResponse (data ++ [x1b]) = Err incomplete.
Proof.
  unfold parseResponse, EscapeCode.
  rewrite strings_LastIndex_found by apply not_elem_of_nil.
  pose proof (len_nonneg data).
  rewrite bool_decide_false by lia.
  rewrite bool_decide_true by lens. done.
Qed.

(** The parse of a response that has an escape byte. *)
Lemma parseResponse_cases (response : gostring) :
  x1b ∈ response ->
  parseResponse response = Err incomplete
  \/ exists data status result,
       response = data ++ x1b :: status :: result
       /\ parseResponse response = Ok (status, result, data).
Proof.
  intros Hin.
  destruct (strings_LastIndex_byte response x1b)
    as [[Habs _] | (before & after & -> & Hafter & _)]; [done |].
  destruct after as [| status result].
  - left. apply parseResponse_end.
  - right. exists before, status, result. split; [done |].
    apply not_elem_of_cons in Hafter as [Hst Hres].
    apply parseResponse_parts; [congruence | done].
Qed.

(** [ReadTracks] is one engine call, and the decoding of its data. *)
Lemma ReadTracks_eq (m : MSR) :
  ReadTracks m
  = let '(r, m') := executeWaitResult (bytes "r") (10 * time_Second) m in
    match r with
    | Ok (status, result, data) =>
        if refused status
        then (Err (fmt_Errorf "read error: %c" [ArgByte status]), m')
        else match decodeISODataBlock data with
             | Ok (strip1, strip2, strip3) =>
                 (Ok {| Track1 := strip1; Track2 := strip2; Track3 := strip3 |}, m')
             | Err e => (Err e, m')
             | Panic => (Panic, m')
             end
    | Err e => (Err e, m')
    | Panic => (Panic, m')
    end.
Proof.
  unfold ReadTracks, and_then.
  destruct (executeWaitResult _ _ m) as [[[[status result] data] | e |] m']; try reflexivity.
  destruct (refused status); [reflexivity |].
  unfold pure, ret. by destruct (decodeISODataBlock data) as [[[s1 s2] s3] | |].
Qed.

(** X7: what [ReadTracks] delivers when the device answers in one read: with
    the block of three tracks, an escape byte and the status '0' brought by
    the first read that brings bytes, the three tracks are returned as they
    were encoded, and the reads that follow are left on the line. *)
Theorem read_tracks_delivers (m : MSR) (q ev : ReadEvent) (rest : list ReadEvent)
    (t1 t2 t3 : gostring) :
  rx (port m) = q :: ev :: rest -> chunk q = [] ->
  chunk ev = encodeISODataBlock t1 t2 t3 ++ [x1b; x30] ->
  t1 <> [] -> x1b ∉ t1 -> t2 <> [] -> x1b ∉ t2 -> head t3 <> Some x1b ->
  write_succeeds (port m) ->
  (ReadTracks m).1 = Ok {| Track1 := t1; Track2 := t2; Track3 := t3 |}
  /\ rx (port (ReadTracks m).2) = rest.
Proof.
  intros Hrx Hq Hev Hn1 Hf1 Hn2 Hf2 Hh3 Hok. rewrite ReadTracks_eq.
  destruct (executeWaitResult_gathers (bytes "r") (10 * time_Second) m q [] ev rest)
    as [Hres Hrest]; [done | done | constructor | | done | done |].
  { rewrite Hev. apply elem_of_app. left. unfold encodeISODataBlock. apply list_elem_of_here. }
  destruct (executeWaitResult _ _ m) as [r m']. cbn [fst snd map concat app] in Hres, Hrest.
  rewrite Hev in Hres.
  rewrite (parseResponse_parts (encodeISODataBlock t1 t2 t3) [] x30) in Hres;
    [| done | apply not_elem_of_nil].
  subst r. cbn [refused bool_decide negb].
  assert (refused x30 = false) as -> by done.
  unfold encodeISODataBlock.
  rewrite (decode_block t1 t1 t2 t2 t3); [done | by constructor | by constructor | done].
Qed.

(** X7 at the tracks "A", "B" and "C". *)
Lemma read_tracks_delivers_witness :
  let quiet := {| ev_data := []; ev_err := false; ev_wait := 100 |} in
  let answer := {| ev_data := encodeISODataBlock (bytes "A") (bytes "B") (bytes "C")
                               ++ [x1b; x30];
                   ev_err := false; ev_wait := 250 |} in
  let m := {| port := {| rx := [quiet; answer]; wr := []; written := [];
                         read_timeout := 100; now := 0 |} |} in
  (ReadTracks m).1 = Ok {| Track1 := bytes "A"; Track2 := bytes "B"; Track3 := bytes "C" |}
  /\ rx (port (ReadTracks m).2) = [].
Proof.
  intros quiet answer m.
  apply (read_tracks_delivers m quiet answer [] (bytes "A") (bytes "B") (bytes "C")).
  - reflexivity.
  - reflexivity.
  - reflexivity.
  - discriminate.
  - decided.
  - discriminate.
  - decided.
  - discriminate.
  - intros code. discriminate.
Defined.

(** Where two strings with the same byte in them agree up to that byte. *)
Lemma cut_cases (b : byte) (t d r r' : gostring) :
  b ∉ t -> d ++ b :: r = t ++ b :: r' ->
  (d = t /\ r = r') \/ (exists d', d = t ++ b :: d' /\ d' ++ b :: r = r').
Proof.
  revert d. induction t as [| c t IH]; intros d Ht Heq.
  - destruct d as [| c' d]; simplify_eq/=; [by left |].
    right. by exists d.
  - apply not_elem_of_cons in Ht as [Hc Ht].
    destruct d as [| c' d]; simplify_eq/=.
    destruct (IH d Ht H0) as [[-> ->] | (d' & -> & <-)]; [by left |].
    right. by exists d'.
Qed.

(** In a block and its status, the status is the only byte '0' that follows
    an escape byte. *)
Lemma status_is_last (t1 t2 t3 data rest : gostring) :
  x1b ∉ t1 -> x1b ∉ t2 -> x1b ∉ t3 ->
  data ++ x1b :: x30 :: rest = encodeISODataBlock t1 t2 t3 ++ [x1b; x30] ->
  rest = [].
Proof.
  intros H1 H2 H3. unfold encodeISODataBlock. intros Heq.
  repeat (simpl in Heq; rewrite <- ?app_assoc in Heq).
  destruct data as [| c0 data]; [done |]. injection Heq as _ Heq.
  destruct data as [| c1 data]; [done |]. injection Heq as _ Heq.
  destruct data as [| c2 data]; [done |]. injection Heq as _ Heq.
  destruct data as [| c3 data]; [done |]. injection Heq as _ Heq.
  apply (cut_cases x1b t1) in Heq as [[_ Heq] | (d1 & -> & Heq)]; [done | | done].
  destruct d1 as [| c4 d1]; [done |]. injection Heq as _ Heq.
  apply (cut_cases x1b t2) in Heq as [[_ Heq] | (d2 & -> & Heq)]; [done | | done].
  destruct d2 as [| c5 d2]; [done |]. injection Heq as _ Heq.
  assert (t3 ++ [x3f; x1c; x1b; x30] = (t3 ++ [x3f; x1c]) ++ [x1b; x30]) as Hre
    by (by rewrite <- app_assoc).
  rewrite Hre in Heq.
  apply (cut_cases x1b (t3 ++ [x3f; x1c])) in Heq as [[_ Heq] | (d3 & -> & Heq)].
  - by injection Heq.
  - by destruct d3 as [| ? [| ? ?]].
  - rewrite not_elem_of_app, !not_elem_of_cons. split; [done |].
    split; [done |]. split; [done |]. apply not_elem_of_nil.
Qed.

(** X8: [ReadTracks] needs the whole response in one read. When the first
    read that brings bytes brings only a part of the block and its status,
    the call stops there, since the block opens with an escape byte, and
    fails: the response is incomplete, or a byte of the block is taken for a
    status other than '0'. *)
Theorem read_tracks_split_response (m : MSR) (q ev : ReadEvent) (rest : list ReadEvent)
    (t1 t2 t3 : gostring) :
  rx (port m) = q :: ev :: rest -> chunk q = [] ->
  write_succeeds (port m) ->
  x1b ∉ t1 -> x1b ∉ t2 -> x1b ∉ t3 ->
  chunk ev <> [] ->
  chunk ev `prefix_of` encodeISODataBlock t1 t2 t3 ++ [x1b; x30] ->
  chunk ev <> encodeISODataBlock t1 t2 t3 ++ [x1b; x30] ->
  (ReadTracks m).1 = Err incomplete
  \/ exists status,
       status <> x30
       /\ (ReadTracks m).1 = Err (fmt_Errorf "read error: %c" [ArgByte status]).
Proof.
  intros Hrx Hq Hok H1 H2 H3 Hne [k Hk] Hpart. rewrite ReadTracks_eq.
  assert (x1b ∈ chunk ev) as Hesc.
  { destruct (chunk ev) as [| c s]; [done |].
    unfold encodeISODataBlock in Hk. injection Hk as <- _. apply list_elem_of_here. }
  destruct (executeWaitResult_gathers (bytes "r") (10 * time_Second) m q [] ev rest)
    as [Hres _]; [done | done | constructor | done | done | done |].
  destruct (executeWaitResult _ _ m) as [r m']. cbn [fst snd map concat app] in Hres.
  subst r.
  destruct (parseResponse_cases (chunk ev) Hesc)
    as [-> | (data & status & result & Hsplit & ->)]; [by left |].
  destruct (decide (status = x30)) as [-> | Hst].
  - exfalso. rewrite Hsplit in Hk, Hpart.
    rewrite <- app_assoc in Hk. simpl in Hk. symmetry in Hk.
    pose proof (status_is_last t1 t2 t3 data (result ++ k) H1 H2 H3 Hk) as Hnil.
    apply app_eq_nil in Hnil as [-> ->]. by rewrite app_nil_r in Hk.
  - right. exists status. split; [done |].
    apply refused_spec in Hst. by rewrite Hst.
Qed.

(** X8 on a response cut behind track 1. *)
Lemma read_tracks_split_response_witness :
  let quiet := {| ev_data := []; ev_err := false; ev_wait := 100 |} in
  let part1 := {| ev_data := [x1b; x73; x1b; x01] ++ bytes "A";
                  ev_err := false; ev_wait := 250 |} in
  let part2 := {| ev_data := [x1b; x02] ++ bytes "B" ++ [x1b; x03] ++ bytes "C"
                              ++ [x3f; x1c; x1b; x30];
                  ev_err := false; ev_wait := 5 |} in
  let m := {| port := {| rx := [quiet; part1; part2]; wr := []; written := [];
                         read_timeout := 100; now := 0 |} |} in
  (ReadTracks m).1 = Err incomplete
  \/ exists status,
       status <> x30
       /\ (ReadTracks m).1 = Err (fmt_Errorf "read error: %c" [ArgByte status]).
Proof.
  intros quiet part1 part2 m.
  apply (read_tracks_split_response m quiet part1 [part2] (bytes "A") (bytes "B") (bytes "C")).
  - reflexivity.
  - reflexivity.
  - intros code. discriminate.
  - decided.
  - decided.
  - decided.
  - discriminate.
  - exists (ev_data part2). reflexivity.
  - discriminate.
Defined.

(** X9: a command that cannot be written is not waited for. When the write
    fails, every operation returns the error of the write as it is, and
    leaves the port as the failed write left it: no sleep, no read beyond
    the clearing of the input, the read timeout as it was. [Reset] returns
    the error likewise. *)
Theorem write_failure_is_returned (op : operation) (m : MSR) (code : nat) :
  head (wr (port m)) = Some (Some code) ->
  (perform op m).1 = Err (port_failure code)
  /\ port (perform op m).2
     = (port_Write (EscapeCode ++ command_of op) (clearInput (port m))).2
  /\ read_timeout (port (perform op m).2) = read_timeout (port m)
  /\ (Reset m).1 = Err (port_failure code).
Proof.
  intros Hhead. rewrite perform_eq.
  destruct (clearInput_later (port m)) as (_ & Hwr & Hrt & _).
  unfold executeWaitResult, Reset, executeNoResult, port_Write.
  rewrite Hwr. destruct (wr (port m)) as [| [c |] rest]; simplify_eq/=.
  done.
Qed.

(** X9 for [ReadTracks] on a port whose write fails. *)
Lemma write_failure_is_returned_witness :
  let m := {| port := {| rx := []; wr := [Some 5%nat]; written := [];
                         read_timeout := 100; now := 0 |} |} in
  (perform read_tracks m).1 = Err (port_failure 5)
  /\ port (perform read_tracks m).2
     = (port_Write (EscapeCode ++ command_of read_tracks) (clearInput (port m))).2
  /\ read_timeout (port (perform read_tracks m).2) = read_timeout (port m)
  /\ (Reset m).1 = Err (port_failure 5).
Proof.
  intros m. apply (write_failure_is_returned read_tracks m 5). reflexivity.
Defined.

(** X10: how long a call takes on a silent line. The clearing of the input
    waits for one read, the command is followed by 100 ms of sleep, and the
    window is looked at only between reads: one read of the whole timeout
    and 10 ms of sleep go by before the call gives up. With no timeout to
    wait for, nothing is read for the response. *)
Theorem silent_line_timing (command : gostring) (timeout : Z) (m : MSR) :
  rx (port m) = [] -> write_succeeds (port m) ->
  (executeWaitResult command timeout m).1 = Err timed_out
  /\ now (port (executeWaitResult command timeout m).2)
     = now (port m) + Z.max 0 (read_timeout (port m)) + 100
       + (if bool_decide (0 < timeout) then timeout + 10 else 0).
Proof.
  intros Hrx Hok. unfold executeWaitResult.
  rewrite clearInput_unfold. unfold clearBody, port_Read. rewrite Hrx.
  cbn [len length Z.of_nat bool_decide]. rewrite bool_decide_true by done.
  unfold port_Write. cbn [wr rx written read_timeout now].
  assert ((match wr (port m) with
           | Some code :: _ => Some (port_failure code)
           | _ => None
           end) = None) as ->.
  { destruct (wr (port m)) as [| [code |] rest] eqn:Hw; [done | | done].
    exfalso. apply (Hok code). by rewrite Hw. }
  set (s := port_SetReadTimeout timeout _).
  assert (rx s = []) as Hs by done.
  assert (read_timeout s = timeout) as Ht by done.
  change (now (time_Sleep _ _)) with (now s).
  assert (now s = now (port m) + Z.max 0 (read_timeout (port m)) + 100) as Hnow
    by (simpl; unfold time_Millisecond; lia).
  rewrite pollLoop_unfold. unfold pollBody.
  rewrite Z.sub_diag.
  case_bool_decide as Hpos.
  - cbn [negb].
    unfold port_Read. rewrite Hs. cbn [len length Z.of_nat].
    rewrite (bool_decide_true (0 = 0)) by done.
    rewrite (bool_decide_false (0 > 0)) by lia.
    rewrite andb_false_l. cbn [andb].
    rewrite pollLoop_unfold. unfold pollBody, time_Sleep.
    cbn [now rx wr written read_timeout].
    rewrite bool_decide_false by (rewrite Ht; unfold time_Millisecond; lia).
    cbn [negb]. split; [done |].
    cbn [snd port now port_SetReadTimeout]. rewrite Hnow. unfold time_Millisecond. lia.
  - cbn [negb].
    split; [done |]. cbn [snd port now port_SetReadTimeout]. rewrite Hnow. lia.
Qed.

(** X10 for a window of ten seconds. *)
Lemma silent_line_timing_witness :
  let m := {| port := {| rx := []; wr := []; written := [];
                         read_timeout := 100; now := 0 |} |} in
  (executeWaitResult (bytes "r") 10000 m).1 = Err timed_out
  /\ now (port (executeWaitResult (bytes "r") 10000 m).2)
     = 0 + Z.max 0 100 + 100 + (if bool_decide (0 < 10000) then 10000 + 10 else 0).
Proof.
  intros m. apply (silent_line_timing (bytes "r") 10000 m).
  - reflexivity.
  - intros code. discriminate.
Defined.

(** X11: every operation hands exactly one buffer to [Write], whatever the
    line then does: the escape byte and the operation's command, behind what
    was written before. *)
Theorem one_command_per_operation (op : operation) (m : MSR) :
  written (port (perform op m).2)
  = written (port m) ++ [EscapeCode ++ command_of op].
Proof.
  rewrite perform_eq.
  pose proof (executeWaitResult_port (command_of op) (10 * time_Second) m) as [Hw _].
  destruct (executeWaitResult _ _ m) as [[[[status result] data] | e |] m'];
    [destruct (refused status) | ..]; exact Hw.
Qed.

(** The value of [byte_of_int]. *)
Lemma byte_of_int_value (v : Z) :
  0 <= v < 256 -> Z.of_N (Byte.to_N (byte_of_int v)) = v.
Proof.
  intros Hv. unfold byte_of_int.
  destruct (Byte.of_N (Z.to_N v)) as [b |] eqn:Hb.
  - apply Byte.to_of_N in Hb. simpl. rewrite Hb. lia.
  - apply Byte.of_N_None_iff in Hb. lia.
Qed.

(** X12: the length prefix of [WriteRawTracks], [string(byte(len(t)))], is
    the one byte of value [len(t)] exactly for tracks shorter than 128
    bytes; from there on it is two bytes, or a byte of another value. *)
Theorem raw_length_prefix (t : gostring) :
  (exists b, string_byte (len t) = [b] /\ Z.of_N (Byte.to_N b) = len t)
  <-> len t < 128.
Proof.
  pose proof (len_nonneg t) as Hlen. unfold string_byte. split.
  - intros (b & Hb & Hv). case_bool_decide as Hlow; [| done].
    injection Hb as <-.
    rewrite byte_of_int_value in Hv by (pose proof (Z.mod_pos_bound (len t) 256); lia).
    lia.
  - intros Hlow. rewrite Z.mod_small by lia. rewrite bool_decide_true by done.
    eexists. split; [done |]. apply byte_of_int_value. lia.
Qed.

(** ** Connecting *)

Lemma strings_Contains_byte_false (s : gostring) (b : byte) :
  b ∉ s -> strings_Contains s [b] = false.
Proof.
  intros Habs. destruct (strings_Contains s [b]) eqn:Hc; [| done].
  by apply strings_Contains_byte in Hc.
Qed.

(** X13: a bare device name is opened under /dev/: for a name with no slash,
    no backslash and no "COM" in it, [NewMSR] does with the name what it
    does with "/dev/" and the name. *)
Theorem bare_name_opens_under_dev
    (serial_Open : gostring -> serial_Mode -> Port + error) (name : gostring) :
  strings_Contains name (bytes "/") = false ->
  strings_Contains name [x5c] = false ->
  strings_Contains name (bytes "COM") = false ->
  NewMSR serial_Open name = NewMSR serial_Open (bytes "/dev/" ++ name).
Proof.
  intros Hslash Hback Hcom. unfold NewMSR.
  rewrite Hslash, Hback, Hcom. cbn [negb andb].
  assert (strings_Contains (bytes "/dev/" ++ name) (bytes "/") = true) as -> by done.
  done.
Qed.

(** X13 at the name ttyUSB0. *)
Lemma bare_name_opens_under_dev_witness :
  NewMSR (fun _ _ => inr (port_failure 2)) (bytes "ttyUSB0")
  = NewMSR (fun _ _ => inr (port_failure 2)) (bytes "/dev/" ++ bytes "ttyUSB0").
Proof.
  apply (bare_name_opens_under_dev (fun _ _ => inr (port_failure 2)) (bytes "ttyUSB0"));
    reflexivity.
Defined.

(** X14: [NewMSR] fails only when the port cannot be opened, with the error
    of [serial.Open] wrapped; otherwise it returns a handle on the opened
    port, to which it has written one command, the reset, and from which it
    has read nothing, whether that write succeeded or not. The port is
    always opened at 9600 baud, 8 data bits, no parity, one stop bit. *)
Theorem connect_resets_once
    (serial_Open : gostring -> serial_Mode -> Port + error) (devPath : gostring) :
  let mode := {| BaudRate := 9600; DataBits := 8;
                 Parity := serial_NoParity; StopBits := serial_OneStopBit |} in
  match NewMSR serial_Open devPath with
  | inr e =>
      exists path cause,
        serial_Open path mode = inr cause
        /\ e = fmt_Errorf_w "failed to open serial port: %w" cause
  | inl m =>
      exists path p,
        serial_Open path mode = inl p
        /\ written (port m) = written p ++ [[x1b; x61]]
        /\ rx (port m) = rx p
        /\ wr (port m) = tail (wr p)
  end.
Proof.
  intros mode. unfold NewMSR. fold mode.
  set (path := if _ : bool then _ else _).
  destruct (serial_Open path mode) as [p | cause] eqn:Hopen.
  - unfold Reset, executeNoResult, port_Write. cbn [port].
    destruct (match wr p with Some code :: _ => _ | _ => None end);
      exists path, p; done.
  - by exists path, cause.
Qed.

(** ** Raw tracks *)

Lemma repeat_elem_of (b c : byte) (n : nat) :
  c ∈ concat (replicate n [b]) -> c = b.
Proof.
  induction n as [| n IH]; simpl.
  - by intros ?%elem_of_nil.
  - intros [-> | Hin]%elem_of_cons; [done | by apply IH].
Qed.

(** X15: what the raw reading example prints for a track: [UnpackRaw] never
    fails, returns the data [PackRaw] was given as it is, and its result is
    printed by [printRawResult] as the one line of data and a blank line,
    never with a count of null bytes, an LRC error or parity errors. *)
Theorem raw_result_printed_plain (data mapping : gostring)
    (bcountCode bcountOutput trackNum : Z) :
  exists res,
    UnpackRaw (PackRaw data mapping bcountCode bcountOutput) mapping
      bcountCode bcountOutput = Ok res
    /\ Data res = data
    /\ printRawResult trackNum res = [bytes "  Data: " ++ data ++ [x0a]; [x0a]].
Proof.
  unfold UnpackRaw, PackRaw, strings_Repeat.
  rewrite bool_decide_false by (pose proof (len_nonneg data); lia).
  cbn [bind]. eexists. split; [done |]. split; [done |].
  unfold printRawResult. cbn [Data TotalLength ParityErrors LRCError].
  rewrite bool_decide_true by done. cbn [negb].
  rewrite (strings_Contains_byte_false _ x5e).
  - by rewrite <- app_assoc.
  - by intros ?%repeat_elem_of.
Qed.

(** ** What is not a response *)

(** The response loop on reads that bring no escape byte: it keeps what it
    has and gathers no escape byte. *)
Lemma pollLoop_no_escape (startTime timeout : Z) (response : gostring) (p : Port) :
  x1b ∉ response ->
  Forall (fun e => x1b ∉ chunk e) (rx p) ->
  (x1b ∉ (pollLoop startTime timeout response p).1)
  /\ response `prefix_of` (pollLoop startTime timeout response p).1.
Proof.
  intros Hfree Hline.
  unfold pollLoop. destruct (pollLoop_runs startTime timeout response p) as [r Hr].
  rewrite Hr. simpl. revert Hr.
  set (Q := fun st : gostring * Port => (x1b ∉ st.1) /\ response `prefix_of` st.1).
  set (I := fun st : gostring * Port =>
              (x1b ∉ st.1) /\ response `prefix_of` st.1
              /\ Forall (fun e => x1b ∉ chunk e) (rx st.2)).
  assert (forall st, I st ->
            match pollBody startTime timeout st with
            | Again st' => I st'
            | Leave st' => Q st'
            end) as Hstep.
  { intros [resp s] (Hresp & Hpre & Hs). simpl in Hresp, Hpre, Hs.
    unfold pollBody. case_bool_decide as Hin; cbn [negb]; [| done].
    unfold port_Read. destruct (rx s) as [| ev later] eqn:Hrx.
    - simpl. split; [done |]. split; [done |]. simpl. constructor.
    - apply Forall_cons in Hs as [Hev Hs]. simpl. fold (chunk ev).
      assert (x1b ∉ resp ++ chunk ev) as Hboth by (rewrite elem_of_app; tauto).
      assert (response `prefix_of` resp ++ chunk ev) as Hpre' by (by apply prefix_app_r).
      destruct (ev_err ev && bool_decide (len (chunk ev) = 0)); [done |].
      destruct (bool_decide (len (chunk ev) > 0)); cbn [andb].
      + destruct (_ && _); [done |].
        split; [done |]. split; [done |]. by destruct (bool_decide _).
      + split; [done |]. split; [done |]. by destruct (bool_decide _). }
  apply (iterate_keeps _ I Q).
  - intros st st' Hst Hb. specialize (Hstep st Hst). by rewrite Hb in Hstep.
  - intros st st' Hst Hb. specialize (Hstep st Hst). by rewrite Hb in Hstep.
  - by repeat split.
Qed.

(** X16: bytes without an escape byte are not a response. When the first
    read after the command brings bytes and no read of the line brings an
    escape byte, the call gathers until the window closes or a read fails,
    and returns the error of an invalid response format. *)
Theorem garbled_response_is_invalid (command : gostring) (timeout : Z) (m : MSR)
    (q ev : ReadEvent) (rest : list ReadEvent) :
  rx (port m) = q :: ev :: rest -> chunk q = [] -> chunk ev <> [] ->
  Forall (fun e => x1b ∉ chunk e) (ev :: rest) ->
  0 < timeout ->
  write_succeeds (port m) ->
  (executeWaitResult command timeout m).1 = Err invalid_format.
Proof.
  intros Hrx Hq Hne Hline Hpos Hok. unfold executeWaitResult.
  pose proof (clearInput_stale (port m) [] q (ev :: rest) Hrx (Forall_nil_2 _) Hq) as Hc.
  destruct (clearInput_later (port m)) as (_ & Hwr & _).
  set (c := clearInput (port m)) in *.
  unfold port_Write.
  set (w := Build_Port (rx c) (tail (wr c)) (written c ++ [EscapeCode ++ command])
              (read_timeout c) (now c)).
  destruct (wr c) as [| [code |] rest'] eqn:Hcw.
  2: { exfalso. eapply Hok. by rewrite <- Hwr. }
  all: set (s := port_SetReadTimeout timeout (time_Sleep (100 * time_Millisecond) w)).
  all: change (now (time_Sleep (100 * time_Millisecond) w)) with (now s).
  all: apply Forall_cons in Hline as [Hev Hline].
  all: assert (len (chunk ev) > 0) as Hlen
         by (pose proof (len_nonneg (chunk ev));
             destruct (decide (len (chunk ev) = 0)) as [?%len_zero |]; [done | lia]).
  all: rewrite pollLoop_unfold; unfold pollBody.
  all: rewrite Z.sub_diag, bool_decide_true by done; cbn [negb].
  all: unfold port_Read; assert (rx s = ev :: rest) as -> by done.
  all: cbn [fst snd app]; fold (chunk ev).
  all: rewrite (bool_decide_false (len (chunk ev) = 0)) by lia; rewrite andb_false_r.
  all: rewrite (bool_decide_true (len (chunk ev) > 0)) by done; cbn [andb].
  all: unfold EscapeCode at 1.
  all: rewrite (strings_Contains_byte_false (chunk ev) x1b) by done; rewrite ?andb_false_r.
  all: match goal with
       | |- context [pollLoop ?a ?b ?r ?p] =>
           destruct (pollLoop_no_escape a b r p) as [Hfree Hpre]; [done | done |];
           destruct (pollLoop a b r p) as [response r']
       end.
  all: simpl in Hfree, Hpre; cbn [fst].
  all: rewrite bool_decide_false
         by (intros Hz%len_zero; subst response;
             apply prefix_nil_inv in Hpre; done).
  all: unfold parseResponse, EscapeCode; by rewrite strings_LastIndex_absent.
Qed.

(** X16 on a line that brings noise twice. *)
Lemma garbled_response_is_invalid_witness :
  let quiet := {| ev_data := []; ev_err := false; ev_wait := 0 |} in
  let noise := {| ev_data := bytes "noise"; ev_err := false; ev_wait := 3 |} in
  let m := {| port := {| rx := [quiet; noise; noise]; wr := []; written := [];
                         read_timeout := 100; now := 0 |} |} in
  (executeWaitResult (bytes "r") 1000 m).1 = Err invalid_format.
Proof.
  intros quiet noise m.
  apply (garbled_response_is_invalid (bytes "r") 1000 m quiet noise [noise]).
  - reflexivity.
  - reflexivity.
  - discriminate.
  - repeat constructor; decided.
  - lia.
  - intros code. discriminate.
Defined.

(** X17: a read that fails is reported as a time-out. When the first read
    after the command returns an error and no byte, the call stops waiting
    at once, whatever is left of the window, and returns the time-out error;
    the error of the read is lost, and what the line brings next is left
    unread. *)
Theorem read_error_reported_as_timeout (command : gostring) (timeout : Z) (m : MSR)
    (q bad : ReadEvent) (rest : list ReadEvent) :
  rx (port m) = q :: bad :: rest -> chunk q = [] ->
  chunk bad = [] -> ev_err bad = true ->
  0 < timeout ->
  write_succeeds (port m) ->
  (executeWaitResult command timeout m).1 = Err timed_out
  /\ rx (port (executeWaitResult command timeout m).2) = rest
  /\ now (port (executeWaitResult command timeout m).2)
     = now (port m) + Z.max 0 (ev_wait q) + 100 + Z.max 0 (ev_wait bad).
Proof.
  intros Hrx Hq Hbad Herr Hpos Hok. unfold executeWaitResult.
  rewrite clearInput_unfold. unfold clearBody, port_Read. rewrite Hrx.
  fold (chunk q). rewrite Hq. cbn [len length Z.of_nat].
  rewrite bool_decide_true by done.
  unfold port_Write. cbn [wr rx written read_timeout now].
  assert ((match wr (port m) with
           | Some code :: _ => Some (port_failure code)
           | _ => None
           end) = None) as ->.
  { destruct (wr (port m)) as [| [code |] rest'] eqn:Hw; [done | | done].
    exfalso. apply (Hok code). by rewrite Hw. }
  set (s := port_SetReadTimeout timeout _).
  change (now (time_Sleep _ _)) with (now s).
  assert (now s = now (port m) + Z.max 0 (ev_wait q) + 100) as Hnow
    by (simpl; unfold time_Millisecond; lia).
  rewrite pollLoop_unfold. unfold pollBody.
  rewrite Z.sub_diag, bool_decide_true by done. cbn [negb].
  unfold port_Read. assert (rx s = bad :: rest) as -> by done.
  fold (chunk bad). rewrite Hbad, Herr. cbn [len length Z.of_nat].
  rewrite bool_decide_true by done. cbn [andb fst snd port rx now port_SetReadTimeout].
  rewrite Hnow. done.
Qed.

(** X17 with a response waiting behind the failed read. *)
Lemma read_error_reported_as_timeout_witness :
  let quiet := {| ev_data := []; ev_err := false; ev_wait := 100 |} in
  let bad := {| ev_data := []; ev_err := true; ev_wait := 7 |} in
  let reply := {| ev_data := [x1b; x30]; ev_err := false; ev_wait := 5 |} in
  let m := {| port := {| rx := [quiet; bad; reply]; wr := []; written := [];
                         read_timeout := 100; now := 0 |} |} in
  (executeWaitResult (bytes "r") 10000 m).1 = Err timed_out
  /\ rx (port (executeWaitResult (bytes "r") 10000 m).2) = [reply]
  /\ now (port (executeWaitResult (bytes "r") 10000 m).2)
     = 0 + Z.max 0 100 + 100 + Z.max 0 7.
Proof.
  intros quiet bad reply m.
  apply (read_error_reported_as_timeout (bytes "r") 10000 m quiet bad [reply]).
  - reflexivity.
  - reflexivity.
  - reflexivity.
  - reflexivity.
  - lia.
  - intros code. discriminate.
Defined.
